(** * Prisma schema import: normalisation, attribute serialisation, projection

    A shallow embedding of [PrismaSchemaUtilsService]
    (packages/amplication-server/src/core/prismaSchemaUtils/prismaSchemaUtils.service.ts).

    The service works on the syntax tree of [@mrleebo/prisma-ast].  The
    embedding starts from the parsed tree: the text parser itself is the
    library's and is not modelled.  What JavaScript leaves implicit is written
    out: an optional member is an [option], [undefined] inside [join] is the
    empty string, a thrown [TypeError] is a constructor of the result type, and
    a node that is mutated in place is addressed by its position in the tree. *)

From Stdlib Require Import Ascii.
From stdpp Require Import base option list strings gmap.

Open Scope string_scope.
Open Scope list_scope.

(** ** Syntax tree *)

(** [arg.value] of an attribute argument.  A literal (string, number or
    boolean token) is kept as its image.  The three object shapes are the
    nodes with [type: "array"], [type: "keyValue"] and [type: "function"]; the
    serialiser knows the first two only.  The [args] member of an array node
    is optional: the parser gives the empty array [[]] as a node without
    it. *)
#[warnings="-register-all"]
Inductive Value : Type :=
| Scalar (token : string)
| Null
| ArrayValue (args : option (list Value))
| KeyValue (key : string) (value : Value)
| Function (name : string) (params : list Value).

Inductive AttributeKind : Type := KindModel | KindField.

Module AttributeArgument.
Record t : Type := mk { value : Value }.
End AttributeArgument.

Module Attribute.
(** [args] is an optional member: [None] is an attribute node without it. *)
Record t : Type := mk {
  kind : AttributeKind;
  name : string;
  args : option (list AttributeArgument.t)
}.
Definition set_args (a : t) (x : option (list AttributeArgument.t)) : t :=
  mk (kind a) (name a) x.
End Attribute.

Module Field.
(** A node with [type: "field"].  [attributes] is an optional member. *)
Record t : Type := mk {
  name : string;
  fieldType : option string;
  optional : bool;
  attributes : option (list Attribute.t)
}.
Definition set_name (f : t) (n : string) : t :=
  mk n (fieldType f) (optional f) (attributes f).
Definition set_attributes (f : t) (x : option (list Attribute.t)) : t :=
  mk (name f) (fieldType f) (optional f) x.
End Field.

(** A property of a model: a field, a block attribute, or a node the service
    never looks into (comment, line break). *)
Inductive Property : Type :=
| PField (f : Field.t)
| PAttribute (a : Attribute.t)
| PComment (text : string)
| PBreak.

Module Model.
Record t : Type := mk { name : string; properties : list Property }.
Definition set_name (m : t) (n : string) : t := mk n (properties m).
Definition set_properties (m : t) (ps : list Property) : t := mk (name m) ps.
End Model.

(** The top-level declarations other than models are told apart by their
    [type] only. *)
Inductive BlockType : Type :=
| TDatasource | TGenerator | TEnum | TComment | TBreak.

Inductive Block : Type :=
| BModel (m : Model.t)
| BOther (type : BlockType) (name : string).

(** [schema.list] *)
Abbreviation Schema := (list Block).

(** The [type] member of a property node. *)
Definition property_type (p : Property) : string :=
  match p with
  | PField _ => "field"
  | PAttribute _ => "attribute"
  | PComment _ => "comment"
  | PBreak => "break"
  end.

(** [schema.list.filter((item) => item.type === "model")] *)
Definition models (s : Schema) : list Model.t :=
  omap (fun b => match b with BModel m => Some m | BOther _ _ => None end) s.

(** [model.properties.filter((prop) => prop.type === "attribute")] *)
Definition modelAttributes (m : Model.t) : list Attribute.t :=
  omap (fun p => match p with PAttribute a => Some a | _ => None end)
       (Model.properties m).

(** [model.properties.filter((prop) => prop.type === "field")] *)
Definition modelFields (m : Model.t) : list Field.t :=
  omap (fun p => match p with PField f => Some f | _ => None end)
       (Model.properties m).

(** ** JavaScript string conversions used by the serialiser *)

(** The double quote character. *)
Definition dquote : string := String (ascii_of_nat 34) EmptyString.

(** [String(v)], as a template literal applies it. *)
Definition toString (v : Value) : string :=
  match v with
  | Scalar token => token
  | Null => "null"
  | ArrayValue _ | KeyValue _ _ | Function _ _ => "[object Object]"
  end.

(** One element of [Array.prototype.join]: [null] and [undefined] give the
    empty string, anything else its [String]. *)
Definition joinElement (v : Value) : string :=
  match v with
  | Null => ""
  | _ => toString v
  end.

(** [xs.join(sep)] for an array of strings. *)
Definition join (sep : string) (xs : list string) : string :=
  String.concat sep xs.

(** [xs.join(sep)] where an element may be [undefined] or [null] ([None]). *)
Definition joinOpt (sep : string) (xs : list (option string)) : string :=
  join sep (map (default "") xs).

(** ** Results of calls that may throw *)

Inductive Outcome (A : Type) : Type :=
| Returns (a : A)
| Throws.
Arguments Returns {A} a.
Arguments Throws {A}.

#[global] Instance Outcome_ret : MRet Outcome := fun A a => Returns a.
#[global] Instance Outcome_bind : MBind Outcome := fun A B f x =>
  match x with Returns a => f a | Throws => Throws end.
#[global] Instance Outcome_fmap : FMap Outcome := fun A B f x =>
  match x with Returns a => Returns (f a) | Throws => Throws end.

(** [xs.map(f)] where [f] may throw: the first throw ends the call. *)
Fixpoint traverse {A B : Type} (f : A -> Outcome B) (xs : list A)
  : Outcome (list B) :=
  match xs with
  | [] => Returns []
  | x :: rest => y ← f x; ys ← traverse f rest; Returns (y :: ys)
  end.

(** [xs.forEach(f)] (or a [map] whose result is dropped) over a state that
    each call updates. *)
Fixpoint forEach {A S : Type} (f : A -> S -> Outcome S) (xs : list A) (s : S)
  : Outcome S :=
  match xs with
  | [] => Returns s
  | x :: rest => s' ← f x s; forEach f rest s'
  end.

(** ** Attribute serialiser *)

(** The callback of [attribute.args.map] in [prepareAttributes].  [None] is
    the [undefined] of the branch that falls through (an object that is
    neither an array nor a keyValue) and the [null] that [arg.value] itself
    may be.  On an array node without [args], [arg.value.args.join] throws a
    TypeError. *)
Definition prepareArg (arg : AttributeArgument.t) : Outcome (option string) :=
  match AttributeArgument.value arg with
  | ArrayValue (Some args) =>
      Returns (Some ("[" +:+ join ", " (map joinElement args) +:+ "]"))
  | ArrayValue None => Throws
  | KeyValue key value => Returns (Some (key +:+ ": " +:+ toString value))
  | Function _ _ => Returns None
  | Scalar token => Returns (Some token)
  | Null => Returns None
  end.

Definition kindPrefix (k : AttributeKind) : string :=
  match k with KindModel => "@@" | KindField => "@" end.

(** The callback of [attributes.map] in [prepareAttributes].  The guard
    [!attribute.args && !attribute.args?.length] holds exactly when [args] is
    absent: an array, empty or not, is truthy. *)
Definition prepareAttribute (attribute : Attribute.t) : Outcome string :=
  match Attribute.args attribute with
  | None =>
      Returns (kindPrefix (Attribute.kind attribute)
               +:+ Attribute.name attribute)
  | Some attributeArgs =>
      args ← traverse prepareArg attributeArgs;
      Returns (kindPrefix (Attribute.kind attribute)
               +:+ Attribute.name attribute
               +:+ "(" +:+ joinOpt ", " args +:+ ")")
  end.

(** [prepareAttributes]: an absent list gives the empty array. *)
Definition prepareAttributes (attributes : option (list Attribute.t))
  : Outcome (list string) :=
  match attributes with
  | None => Returns []
  | Some attrs => traverse prepareAttribute attrs
  end.

(** ** What the service imports from modules that are not in this file

    [pluralize] is the npm package of that name; [handleModelName],
    [filterOutAmplicationAttributes] and [idTypePropertyMap] come from
    [./schema-utils].  They are the members of one interface, and every
    definition below is stated over an arbitrary instance of it. *)
Class SchemaUtils : Type := {
  (** [pluralize(word)] *)
  pluralize : string -> string;
  (** [pluralize.isPlural(word)] *)
  isPlural : string -> bool;
  (** [handleModelName(modelName)] *)
  handleModelName : string -> string;
  (** which serialised attributes are Amplication's own *)
  isAmplicationAttribute : string -> bool;
  (** the values of [idTypePropertyMap] *)
  IdTypeProperties : Type;
  (** [idTypePropertyMap], keyed by the name of a default-value function *)
  idTypePropertyMap : gmap string IdTypeProperties
}.

(** ** The schema builder

    [ConcretePrismaSchemaBuilder] of prisma-ast holds the tree and two
    cursors, [_subject] and [_parent].  Its nodes are JavaScript objects that
    the service and the builder both hold and mutate; here a node is named by
    its position ([list] index of the declaration, index of the property in
    the model), which stays valid because the builder only ever appends.

    Of the builder the service uses [model], [field], [blockAttribute],
    [attribute], [then] and [getSchema].  [model] and [field] select the
    declaration of the given name and create it at the end when there is
    none; they scan with [reduce], so among several of one name the last is
    selected.  A field that [field] creates has the type [String], the
    default of the method's second parameter. *)

(** [xs.reduce((memo, x) => p(x) ? x : memo, fresh)], as the position of the
    element it returns; [None] when it returns [fresh]. *)
Fixpoint findLast {A : Type} (p : A -> bool) (xs : list A) : option nat :=
  match xs with
  | [] => None
  | x :: rest =>
      match findLast p rest with
      | Some i => Some (S i)
      | None => if p x then Some 0 else None
      end
  end.

Definition isModelNamed (name : string) (b : Block) : bool :=
  match b with
  | BModel m => String.eqb (Model.name m) name
  | BOther _ _ => false
  end.

Definition isFieldNamed (name : string) (p : Property) : bool :=
  match p with
  | PField f => String.eqb (Field.name f) name
  | _ => false
  end.

Definition isAttributeNamed (name : string) (a : Attribute.t) : bool :=
  String.eqb (Attribute.name a) name.

(** Apply [f] to the model at a declaration, to the field at a property. *)
Definition onModel (f : Model.t -> Model.t) (b : Block) : Block :=
  match b with
  | BModel m => BModel (f m)
  | BOther _ _ => b
  end.

Definition onField (f : Field.t -> Field.t) (p : Property) : Property :=
  match p with
  | PField x => PField (f x)
  | _ => p
  end.

(** [model.properties.push(p)] *)
Definition pushProperty (p : Property) (m : Model.t) : Model.t :=
  Model.set_properties m (Model.properties m ++ [p]).

(** What [attribute(name, args)] does to [subject.attributes] (an absent list
    counts as empty): the attribute of that name, the last one if several, has
    its [args] replaced; when there is none, a new field-level attribute is
    pushed. *)
Definition attachAttribute (name : string) (args : list AttributeArgument.t)
    (attrs : list Attribute.t) : list Attribute.t :=
  match findLast (isAttributeNamed name) attrs with
  | Some i => alter (fun a => Attribute.set_args a (Some args)) i attrs
  | None => attrs ++ [Attribute.mk KindField name (Some args)]
  end.

(** The node a [then] callback receives. *)
Inductive Node : Type :=
| NModel (m : Model.t)
| NField (f : Field.t).

Definition nodeName (n : Node) : string :=
  match n with NModel m => Model.name m | NField f => Field.name f end.

(** [node.name = name] *)
Definition setNodeName (name : string) (n : Node) : Node :=
  match n with
  | NModel m => NModel (Model.set_name m name)
  | NField f => NField (Field.set_name f name)
  end.

Module Builder.

Inductive Ref : Type :=
| RModel (i : nat)
| RField (i j : nat).

Record t : Type := mk {
  schema : Schema;
  subject : option Ref;
  parent : option Ref
}.

(** [createPrismaSchemaBuilder(source)], from the parsed source. *)
Definition create (s : Schema) : t := mk s None None.

(** [builder.getSchema()] *)
Definition getSchema (b : t) : Schema := schema b.

(** [builder.model(name)] *)
Definition model (name : string) (b : t) : t :=
  match findLast (isModelNamed name) (schema b) with
  | Some i => mk (schema b) (Some (RModel i)) (parent b)
  | None =>
      mk (schema b ++ [BModel (Model.mk name [])])
         (Some (RModel (List.length (schema b)))) (parent b)
  end.

(** The model the next [field] or [blockAttribute] works on: the subject,
    or the parent when the subject is a field. *)
Definition currentModel (b : t) : option nat :=
  match subject b with
  | Some (RModel i) => Some i
  | Some (RField i _) => Some i
  | None => None
  end.

(** [builder.blockAttribute(name, args)] with a string for [args]: one
    argument, the string in double quotes. *)
Definition blockAttribute (name : string) (args : string) (b : t)
  : Outcome t :=
  match currentModel b with
  | Some i =>
      let property :=
        PAttribute
          (Attribute.mk KindModel name
             (Some [AttributeArgument.mk (Scalar (dquote +:+ args +:+ dquote))]))
      in
      Returns (mk (alter (onModel (pushProperty property)) i (schema b))
                  (Some (RModel i)) (parent b))
  | None => Throws
  end.

(** [builder.field(name)] *)
Definition field (name : string) (b : t) : Outcome t :=
  match currentModel b with
  | Some i =>
      match schema b !! i with
      | Some (BModel m) =>
          match findLast (isFieldNamed name) (Model.properties m) with
          | Some j => Returns (mk (schema b) (Some (RField i j)) (Some (RModel i)))
          | None =>
              let fresh := PField (Field.mk name (Some "String") false None) in
              Returns (mk (alter (onModel (pushProperty fresh)) i (schema b))
                          (Some (RField i (List.length (Model.properties m))))
                          (Some (RModel i)))
          end
      | _ => Throws
      end
  | None => Throws
  end.

(** [builder.attribute(name, args)] with an array of strings for [args]:
    one argument per string, the string as it is. *)
Definition attribute (name : string) (args : list string) (b : t)
  : Outcome t :=
  match subject b, parent b with
  | Some (RField i j), Some (RModel _) =>
      let attach (f : Field.t) :=
        Field.set_attributes f
          (Some (attachAttribute name
                   (map (fun a => AttributeArgument.mk (Scalar a)) args)
                   (default [] (Field.attributes f))))
      in
      Returns (mk (alter (onModel (fun m =>
                     Model.set_properties m
                       (alter (onField attach) j (Model.properties m))))
                   i (schema b))
                  (subject b) (parent b))
  | _, _ => Throws
  end.

(** The node under the cursor. *)
Definition subjectNode (b : t) : option Node :=
  match subject b with
  | Some (RModel i) =>
      match schema b !! i with
      | Some (BModel m) => Some (NModel m)
      | _ => None
      end
  | Some (RField i j) =>
      match schema b !! i with
      | Some (BModel m) =>
          match Model.properties m !! j with
          | Some (PField f) => Some (NField f)
          | _ => None
          end
      | _ => None
      end
  | None => None
  end.

(** Put a node back where the cursor is. *)
Definition putSubject (n : Node) (b : t) : t :=
  match subject b, n with
  | Some (RModel i), NModel m =>
      mk (alter (onModel (fun _ => m)) i (schema b)) (subject b) (parent b)
  | Some (RField i j), NField f =>
      mk (alter (onModel (fun m =>
            Model.set_properties m
              (alter (onField (fun _ => f)) j (Model.properties m))))
          i (schema b))
         (subject b) (parent b)
  | _, _ => b
  end.

(** [builder.then(callback)]: the callback mutates the subject. *)
Definition then_ (callback : Node -> Node) (b : t) : Outcome t :=
  match subjectNode b with
  | Some n => Returns (putSubject (callback n) b)
  | None => Throws
  end.

End Builder.

(** ** Projection output and validation errors *)

Module CreateEntityInput.
Record t : Type := mk {
  name : string;
  displayName : string;
  pluralDisplayName : string;
  description : option string;
  customAttributes : list string
}.
End CreateEntityInput.

Module CreateEntityFieldInput.
(** [unique] is [undefined] ([None]) for a field without an [attributes]
    member; [properties] is [undefined] when the resolver finds nothing. *)
Record t {P : Type} : Type := mk {
  name : string;
  displayName : string;
  dataType : string;
  required : bool;
  unique : option bool;
  searchable : bool;
  description : option string;
  properties : option P;
  customAttributes : list string
}.
Arguments t P : clear implicits.
End CreateEntityFieldInput.

Module SchemaEntityFields.
Record t {P : Type} : Type := mk {
  entity : CreateEntityInput.t;
  fields : list (CreateEntityFieldInput.t P)
}.
Arguments t P : clear implicits.
End SchemaEntityFields.

(** Modelled from the spec: the enumerations [ErrorMessages] and [ErrorLevel]
    of [./types], of which the service uses [NoModels] and [Error]; the spec
    gives the levels as Error and Warning. *)
Inductive ErrorMessages : Type := NoModels.
Inductive ErrorLevel : Type := Error | Warning.

Module ErrorMessage.
Record t : Type := mk {
  message : ErrorMessages;
  level : ErrorLevel;
  details : string
}.
End ErrorMessage.

(** ** Schema validator *)

(** [validateSchemaProcessing], from the tree [getSchema(schema)] returns. *)
Definition validateSchemaProcessing (schemaObject : Schema)
  : option (list ErrorMessage.t) :=
  let errors :=
    if Nat.eqb (List.length (models schemaObject)) 0
    then [ErrorMessage.mk NoModels Error
            "A schema must contain at least one model"]
    else []
  in
  if Nat.ltb 0 (List.length errors) then Some errors else None.

Section Service.

Context `{SchemaUtils}.

(** Modelled from the spec: [filterOutAmplicationAttributes] of
    [./schema-utils], which is not in this file.  The spec has it remove the
    internally reserved attributes from the serialised list and keep the
    order of the others. *)
Definition filterOutAmplicationAttributes (attributes : list string)
  : list string :=
  List.filter (fun a => negb (isAmplicationAttribute a)) attributes.

(** ** Default-property resolver *)

(** [field.attributes?.some((attr) => attr.name === name)]; [None] is the
    [undefined] of an absent list. *)
Definition someAttributeNamed (name : string) (field : Field.t)
  : option bool :=
  existsb (isAttributeNamed name) <$> Field.attributes field.

(** [idTypePropertyMap[key]]: an [undefined] key reads the property called
    "undefined". *)
Definition idTypeProperty (key : option string) : option IdTypeProperties :=
  idTypePropertyMap !! default "undefined" key.

(** [value.name] of a value that is not [null]. *)
Definition valueName (v : Value) : option string :=
  match v with
  | Function name _ => Some name
  | _ => None
  end.

(** [prepareFiledProperties].  [args[0]] throws when [args] is absent,
    [.value] throws when there is no first argument, [.name] throws on
    [null]. *)
Definition prepareFiledProperties (field : Field.t)
  : Outcome (option IdTypeProperties) :=
  match List.find (isAttributeNamed "default")
          (default [] (Field.attributes field)) with
  | None => Returns None
  | Some defaultIdAttribute =>
      match Attribute.args defaultIdAttribute with
      | None => Throws
      | Some [] => Throws
      | Some (arg0 :: _) =>
          match AttributeArgument.value arg0 with
          | Null => Throws
          | v => Returns (idTypeProperty (valueName v))
          end
      end
  end.

(** ** Entity projector *)

Definition prepareEntity (model : Model.t) : Outcome CreateEntityInput.t :=
  let entityPluralDisplayName := pluralize (Model.name model) in
  entityAttributes ← prepareAttributes (Some (modelAttributes model));
  Returns (CreateEntityInput.mk (Model.name model) (Model.name model)
             entityPluralDisplayName None entityAttributes).

(** The callback of [modelFields.map] in [prepareEntityFields].  [field.type]
    is the node's [type] member. *)
Definition prepareEntityField (field : Field.t)
  : Outcome (CreateEntityFieldInput.t IdTypeProperties) :=
  let isUniqueField := someAttributeNamed "unique" field in
  fieldProperties ← prepareFiledProperties field;
  serialized ← prepareAttributes (Field.attributes field);
  let fieldAttributes := filterOutAmplicationAttributes serialized in
  Returns (CreateEntityFieldInput.mk IdTypeProperties
             (Field.name field) (Field.name field)
             (property_type (PField field))
             (Field.optional field)
             isUniqueField false None fieldProperties fieldAttributes).

Definition prepareEntityFields (model : Model.t)
  : Outcome (list (CreateEntityFieldInput.t IdTypeProperties)) :=
  traverse prepareEntityField (modelFields model).

(** ** Normalisation pipeline *)

(** The positions of the models of [schema.list]: the array
    [schema.list.filter(...)] holds the same objects as the tree, so each
    callback below reads its model as the tree has it at that moment. *)
Fixpoint modelIndicesFrom (i : nat) (s : Schema) : list nat :=
  match s with
  | [] => []
  | BModel _ :: rest => i :: modelIndicesFrom (S i) rest
  | BOther _ _ :: rest => modelIndicesFrom (S i) rest
  end.

Definition modelIndices (s : Schema) : list nat := modelIndicesFrom 0 s.

(** [name.includes(sub)] *)
Definition includes (sub name : string) : bool :=
  bool_decide (is_Some (String.index 0 sub name)).

Definition isInvalidModelName (name : string) : bool :=
  isPlural name || includes "_" name.

(** The callback of [models.map] in [handleModelNamesRenaming]. *)
Definition renameModelAt (i : nat) (builder : Builder.t)
  : Outcome Builder.t :=
  match Builder.schema builder !! i with
  | Some (BModel model) =>
      if isInvalidModelName (Model.name model) then
        b1 ← Builder.blockAttribute "map" (Model.name model)
               (Builder.model (Model.name model) builder);
        Builder.then_ (fun n => setNodeName (handleModelName (nodeName n)) n)
          (Builder.model (Model.name model) b1)
      else Returns builder
  | _ => Returns builder
  end.

Definition handleModelNamesRenaming (builder : Builder.t)
  : Outcome Builder.t :=
  forEach renameModelAt (modelIndices (Builder.getSchema builder)) builder.

Definition isIdField (property : Property) : bool :=
  match property with
  | PField f =>
      default false (existsb (isAttributeNamed "id") <$> Field.attributes f)
  | _ => false
  end.

(** [model.properties.find(...)], as the field it returns. *)
Definition findIdField (model : Model.t) : option Field.t :=
  match List.find isIdField (Model.properties model) with
  | Some (PField f) => Some f
  | _ => None
  end.

(** The callback of [models.map] in [handleIdField]. *)
Definition renameIdFieldAt (i : nat) (builder : Builder.t)
  : Outcome Builder.t :=
  match Builder.schema builder !! i with
  | Some (BModel model) =>
      match findIdField model with
      | Some idField =>
          if negb (String.eqb (Field.name idField) "id") then
            b1 ← Builder.field (Field.name idField)
                   (Builder.model (Model.name model) builder);
            b2 ← Builder.attribute "map" [Field.name idField] b1;
            b3 ← Builder.field (Field.name idField)
                   (Builder.model (Model.name model) b2);
            Builder.then_ (setNodeName "id") b3
          else Returns builder
      | None => Returns builder
      end
  | _ => Returns builder
  end.

Definition handleIdField (builder : Builder.t) : Outcome Builder.t :=
  forEach renameIdFieldAt (modelIndices (Builder.getSchema builder)) builder.

Definition Operation : Type := Builder.t -> Outcome Builder.t.

Definition operations : list Operation :=
  [handleModelNamesRenaming; handleIdField].

(** [prepareSchema(...operations)(initialSchema)], from the parsed source. *)
Definition prepareSchema (operations : list Operation)
    (initialSchema : Schema) : Outcome Schema :=
  builder ← forEach (fun operation builder => operation builder)
               operations (Builder.create initialSchema);
  Returns (Builder.getSchema builder).

(** [this.debugSchema(preparedSchema)]: the class has no member of that
    name, so the call throws a TypeError. *)
Definition debugSchema (preparedSchema : Schema) : Outcome unit := Throws.

Definition prepareEntitiesWithFields (schema : Schema)
  : Outcome (list (SchemaEntityFields.t IdTypeProperties)) :=
  preparedSchema ← prepareSchema operations schema;
  _ ← debugSchema preparedSchema;
  traverse (fun model =>
              entity ← prepareEntity model;
              fields ← prepareEntityFields model;
              Returns (SchemaEntityFields.mk IdTypeProperties entity fields))
           (models preparedSchema).

End Service.

(** ** The shapes the normalisers are expected to produce *)

(** First position at which [p] holds: the element [xs.find(p)] returns. *)
Fixpoint findIndex {A : Type} (p : A -> bool) (xs : list A) : option nat :=
  match xs with
  | [] => None
  | x :: rest => if p x then Some 0 else S <$> findIndex p rest
  end.

Definition modelNames (s : Schema) : list string :=
  map Model.name (models s).

(** The names of the fields among some properties. *)
Definition propertyFieldNames (ps : list Property) : list string :=
  map Field.name
    (omap (fun p => match p with PField f => Some f | _ => None end) ps).

Definition fieldNames (m : Model.t) : list string :=
  propertyFieldNames (Model.properties m).

(** The model-level mapping attribute [@@map("original")]. *)
Definition mapBlockAttribute (original : string) : Property :=
  PAttribute
    (Attribute.mk KindModel "map"
       (Some [AttributeArgument.mk (Scalar (dquote +:+ original +:+ dquote))])).

(** The primary-key field after the id field normaliser renamed it: the name
    is [id], and a [map] attribute carries the original name. *)
Definition renamedIdField (f : Field.t) : Field.t :=
  Field.mk "id" (Field.fieldType f) (Field.optional f)
    (Some (attachAttribute "map" [AttributeArgument.mk (Scalar (Field.name f))]
             (default [] (Field.attributes f)))).

Section Expected.

Context `{SchemaUtils}.

(** A model after the model name normaliser. *)
Definition renamedModel (m : Model.t) : Model.t :=
  if isInvalidModelName (Model.name m)
  then Model.mk (handleModelName (Model.name m))
         (Model.properties m ++ [mapBlockAttribute (Model.name m)])
  else m.

(** A model after the id field normaliser: the first field that carries
    [@id] is renamed unless it is called [id] already. *)
Definition canonicalIdField (f : Field.t) : Field.t :=
  if String.eqb (Field.name f) "id" then f else renamedIdField f.

Definition normalizedIdModel (m : Model.t) : Model.t :=
  match findIndex isIdField (Model.properties m) with
  | Some j =>
      Model.set_properties m
        (alter (onField canonicalIdField) j (Model.properties m))
  | None => m
  end.

(** The contract the spec gives [handleModelName]: the name it returns is
    singular and has no underscore. *)
Definition handleModelName_compliant : Prop :=
  forall name, isInvalidModelName (handleModelName name) = false.

(** The whole pipeline. *)
Definition normalize (s : Schema) : Outcome Schema :=
  prepareSchema operations s.

(** The id field normaliser has nothing to do in a model. *)
Definition idSettled (m : Model.t) : Prop :=
  match findIdField m with
  | Some f => Field.name f = "id"
  | None => True
  end.

End Expected.

(** ** A small instance of the imported interface, for the examples

    Three plural or snake-case words with their singular form, [s] appended
    as the plural, the attributes [@id], [@unique] and [@default] reserved,
    and the three id generators of Prisma in the table. *)
Definition exampleSingular (name : string) : string :=
  if String.eqb name "Users" then "User"
  else if String.eqb name "Posts" then "Post"
  else if String.eqb name "blog_posts" then "BlogPost"
  else "Renamed".

Definition exampleUtils : SchemaUtils := {|
  pluralize := fun name => name +:+ "s";
  isPlural := fun name => String.eqb name "Users" || String.eqb name "Posts";
  handleModelName := exampleSingular;
  isAmplicationAttribute := fun a =>
    String.prefix "@id" a || String.prefix "@unique" a
    || String.prefix "@default" a;
  IdTypeProperties := string;
  idTypePropertyMap :=
    {[ "autoincrement" := "AUTO_INCREMENT"; "cuid" := "CUID"; "uuid" := "UUID" ]}
|}.

(** [@id], [@unique], [@default(autoincrement())] as the parser gives them. *)
Definition idAttribute : Attribute.t := Attribute.mk KindField "id" None.
Definition uniqueAttribute : Attribute.t := Attribute.mk KindField "unique" None.
Definition autoincrementAttribute : Attribute.t :=
  Attribute.mk KindField "default"
    (Some [AttributeArgument.mk (Function "autoincrement" [])]).

(** model Users { userId Int @id @default(autoincrement())
                  email String? @unique } *)
Definition usersModel : Model.t :=
  Model.mk "Users"
    [ PField (Field.mk "userId" (Some "Int") false
                (Some [idAttribute; autoincrementAttribute]));
      PField (Field.mk "email" (Some "String") true (Some [uniqueAttribute])) ].

(** model User { uid Int @id } *)
Definition userModel : Model.t :=
  Model.mk "User" [ PField (Field.mk "uid" (Some "Int") false (Some [idAttribute])) ].

(** datasource db { ... }  followed by the model [Users] *)
Definition usersSchema : Schema := [BOther TDatasource "db"; BModel usersModel].

(** The model [Users] as the pipeline returns it. *)
Definition normalizedUsersModel : Model.t :=
  Model.mk "User"
    [ PField (Field.mk "id" (Some "Int") false
                (Some [idAttribute; autoincrementAttribute;
                       Attribute.mk KindField "map"
                         (Some [AttributeArgument.mk (Scalar "userId")])]));
      PField (Field.mk "email" (Some "String") true (Some [uniqueAttribute]));
      mapBlockAttribute "Users" ].

(** What the projector gives for [normalizedUsersModel]. *)
Definition usersEntity : CreateEntityInput.t :=
  CreateEntityInput.mk "User" "User" "Users" None
    ["@@map(" +:+ dquote +:+ "Users" +:+ dquote +:+ ")"].

Definition usersFieldRecords : list (CreateEntityFieldInput.t string) :=
  [ CreateEntityFieldInput.mk string "id" "id" "field" false (Some false)
      false None (Some "AUTO_INCREMENT") ["@map(userId)"];
    CreateEntityFieldInput.mk string "email" "email" "field" true
      (Some true) false None None [] ].

(** model Users { userId Int @id }  and  model User { uid Int @id } *)
Definition usersAndUser : Schema :=
  [ BModel (Model.mk "Users"
              [PField (Field.mk "userId" (Some "Int") false (Some [idAttribute]))]);
    BModel (Model.mk "User"
              [PField (Field.mk "uid" (Some "Int") false (Some [idAttribute]))]) ].

(** What [usersAndUser] has become once [Users] is renamed: two models of
    the name [User]. *)
Definition sameNameModels : Schema :=
  [ BModel (Model.mk "User"
              [PField (Field.mk "userId" (Some "Int") false (Some [idAttribute]));
               mapBlockAttribute "Users"]);
    BModel (Model.mk "User"
              [PField (Field.mk "uid" (Some "Int") false (Some [idAttribute]))]) ].

(** What the id field normaliser makes of [sameNameModels]: the first model
    as it was, the second with its own primary key renamed and with one more
    field, which carries the name of the first model's primary key. *)
Definition sameNameModelsAfter : Schema :=
  [ BModel (Model.mk "User"
              [PField (Field.mk "userId" (Some "Int") false (Some [idAttribute]));
               mapBlockAttribute "Users"]);
    BModel (Model.mk "User"
              [PField (Field.mk "id" (Some "Int") false
                         (Some [idAttribute;
                                Attribute.mk KindField "map"
                                  (Some [AttributeArgument.mk (Scalar "uid")])]));
               PField (Field.mk "id" (Some "String") false
                         (Some [Attribute.mk KindField "map"
                                  (Some [AttributeArgument.mk
                                           (Scalar "userId")])]))]) ].

(** model Account { token String @default }: the [default] attribute has
    no argument list. *)
Definition accountSchema : Schema :=
  [ BModel (Model.mk "Account"
              [PField (Field.mk "token" (Some "String") false
                         (Some [Attribute.mk KindField "default" None]))]) ].


(** [@relation(fields: [authorId], references: [id])] *)
Definition relationAttribute : Attribute.t :=
  Attribute.mk KindField "relation"
    (Some [AttributeArgument.mk
             (KeyValue "fields" (ArrayValue (Some [Scalar "authorId"])));
           AttributeArgument.mk
             (KeyValue "references" (ArrayValue (Some [Scalar "id"])))]).

(** ** What the builder's updates can and cannot change

    Each update the service makes through the builder rewrites one model in
    place: it pushes a property, sets the model's name, or rewrites one field
    (attaches an attribute, sets its name). *)

(** The declarations of a schema with the models blanked out. *)
Definition skeleton (s : Schema) : list (option (BlockType * string)) :=
  map (fun b => match b with
                | BModel _ => None
                | BOther t n => Some (t, n)
                end) s.

Inductive FieldEdit : (Field.t -> Field.t) -> Prop :=
| edit_attach_map (args : list AttributeArgument.t) :
    FieldEdit (fun f =>
                 Field.set_attributes f
                   (Some (attachAttribute "map" args
                            (default [] (Field.attributes f)))))
| edit_field_name (n : string) :
    FieldEdit (fun f => Field.set_name f n).

Inductive ModelEdit : (Model.t -> Model.t) -> Prop :=
| edit_push_attribute (a : Attribute.t) :
    ModelEdit (pushProperty (PAttribute a))
| edit_push_field (n : string) :
    ModelEdit (pushProperty (PField (Field.mk n (Some "String") false None)))
| edit_model_name (n : string) :
    ModelEdit (fun m => Model.set_name m n)
| edit_field (h : Field.t -> Field.t) (k : nat) :
    FieldEdit h ->
    ModelEdit (fun m =>
                 Model.set_properties m
                   (alter (onField h) k (Model.properties m))).

(** [Edited s s']: [s'] comes from [s] by a sequence of such updates. *)
Inductive Edited : Schema -> Schema -> Prop :=
| Edited_refl (s : Schema) : Edited s s
| Edited_step (s s1 : Schema) (g : Model.t -> Model.t) (j : nat) :
    Edited s s1 -> ModelEdit g -> Edited s (alter (onModel g) j s1).

(** ** Fields the default-property resolver can handle *)

(** [attribute.args[0].value.name] can be read. *)
Definition hasFirstArgument (a : Attribute.t) : bool :=
  match Attribute.args a with
  | Some (arg0 :: _) =>
      match AttributeArgument.value arg0 with
      | Null => false
      | _ => true
      end
  | _ => false
  end.

(** The field has no [default] attribute, or the first one has a first
    argument that is not [null]. *)
Definition fieldResolvable (f : Field.t) : bool :=
  match List.find (isAttributeNamed "default")
          (default [] (Field.attributes f)) with
  | Some a => hasFirstArgument a
  | None => true
  end.

Definition modelResolvable (m : Model.t) : bool :=
  forallb (fun p => match p with
                    | PField f => fieldResolvable f
                    | _ => true
                    end) (Model.properties m).

Definition schemaResolvable (s : Schema) : bool :=
  forallb (fun b => match b with
                    | BModel m => modelResolvable m
                    | BOther _ _ => true
                    end) s.

(** The call returned. *)
Definition isReturns {A : Type} (o : Outcome A) : bool :=
  match o with
  | Returns _ => true
  | Throws => false
  end.

(** ** Projected records after the normalisers *)

Section ExpectedRecords.
Context `{SchemaUtils}.

(** The record of the primary-key field once the field is renamed: the name
    is [id], and [@map] of the original name is added to the custom
    attributes unless it is reserved. *)
Definition renamedIdRecord (original : string)
    (r : CreateEntityFieldInput.t IdTypeProperties)
  : CreateEntityFieldInput.t IdTypeProperties :=
  CreateEntityFieldInput.mk IdTypeProperties "id" "id"
    (CreateEntityFieldInput.dataType r)
    (CreateEntityFieldInput.required r)
    (CreateEntityFieldInput.unique r)
    (CreateEntityFieldInput.searchable r)
    (CreateEntityFieldInput.description r)
    (CreateEntityFieldInput.properties r)
    (CreateEntityFieldInput.customAttributes r
     ++ filterOutAmplicationAttributes ["@map(" +:+ original +:+ ")"]).

(** The record of a model once the model is renamed: the names follow the
    new name, and [@@map] of the original name in double quotes is the last
    custom attribute. *)
Definition renamedEntity (original : string) (e : CreateEntityInput.t)
  : CreateEntityInput.t :=
  CreateEntityInput.mk (handleModelName original) (handleModelName original)
    (pluralize (handleModelName original))
    (CreateEntityInput.description e)
    (CreateEntityInput.customAttributes e
     ++ ["@@map(" +:+ dquote +:+ original +:+ dquote +:+ ")"]).

End ExpectedRecords.

(** [typeof v === "object" && v !== null] *)
Definition isObject (v : Value) : bool :=
  match v with
  | Scalar _ | Null => false
  | ArrayValue _ | KeyValue _ _ | Function _ _ => true
  end.

(** ** Syntax validation of an uploaded file *)

Definition backslash : ascii := ascii_of_nat 92.
Definition linefeed : ascii := ascii_of_nat 10.

(** [file.replace(/\\n/g, "\n")]: every backslash that is followed by the
    letter n is replaced, together with the n, by a line feed; the scan goes
    from left to right and goes on after the replaced pair. *)
Fixpoint replaceEscapedNewlines (file : string) : string :=
  match file with
  | EmptyString => EmptyString
  | String c rest =>
      match rest with
      | String d rest' =>
          if Ascii.eqb c backslash && Ascii.eqb d "n"
          then String linefeed (replaceEscapedNewlines rest')
          else String c (replaceEscapedNewlines rest)
      | EmptyString => String c EmptyString
      end
  end.

(** What [validateSchemaUpload] writes to the logger. *)
Inductive LogEntry : Type :=
| LogInfo (message : string)
| LogError (message : string).

Section Upload.

(** [validate({ datamodel })] of [@prisma/internals]: [true] when it returns,
    [false] when it throws. *)
Variable validate : string -> bool.

(** [validateSchemaUpload]: the log, and whether the call returns or throws
    (the error it throws is always [Error("Invalid schema")]). *)
Definition validateSchemaUpload (file : string)
  : list LogEntry * Outcome unit :=
  let schemaString := replaceEscapedNewlines file in
  if validate schemaString
  then ([LogInfo "Valid schema"], Returns tt)
  else ([LogError "Invalid schema"], Throws).

End Upload.

(** ** Form inputs for entity fields

    [createFieldInput] of the admin UI generator.  An element is kept as the
    call of the [jsxElement] template tag that builds it: the literal pieces
    of the template and the interpolated values between them. *)

Definition newline : string := String linefeed EmptyString.

#[warnings="-register-all"]
Inductive TemplateValue : Type :=
| TText (text : string)
| TUndefined
| TElement (element : JSXElement)
with JSXElement : Type :=
| jsxElement (strings : list string) (values : list TemplateValue).

(** A value read from a record that may lack the key. *)
Definition templateValue (v : option string) : TemplateValue :=
  match v with
  | Some text => TText text
  | None => TUndefined
  end.

Module EnumDataType.
(** The members are the keys of [DATA_TYPE_TO_FIELD_INPUT], whose type has one
    key for each member of the enumeration. *)
Inductive t : Type :=
| SingleLineText | MultiLineText | Email | WholeNumber | DateTime
| DecimalNumber | Lookup | MultiSelectOptionSet | OptionSet | Boolean
| GeographicLocation | Id | CreatedAt | UpdatedAt | Roles | Username
| Password.
End EnumDataType.

Module OptionSetOption.
Record t : Type := mk { value : string; label : string }.
End OptionSetOption.

Module FieldProperties.
(** [field.properties], with the members the inputs read: [dateOnly] (absent
    counts as false), [relatedEntityId] of a lookup field, [options] of an
    option set field. *)
Record t : Type := mk {
  dateOnly : bool;
  relatedEntityId : string;
  options : list OptionSetOption.t
}.
End FieldProperties.

Module EntityField.
Record t : Type := mk {
  name : string;
  displayName : string;
  dataType : EnumDataType.t;
  properties : FieldProperties.t
}.
End EntityField.

(** The callback of [options.map] in the option set input. *)
Definition optionText (option : OptionSetOption.t) : string :=
  "{ value: " +:+ dquote +:+ OptionSetOption.value option +:+ dquote
  +:+ ",label: " +:+ dquote +:+ OptionSetOption.label option +:+ dquote
  +:+ " },".

Definition DATA_TYPE_TO_FIELD_INPUT (dataType : EnumDataType.t)
  : option (EntityField.t -> gmap string string -> JSXElement) :=
  match dataType with
  | EnumDataType.SingleLineText =>
      Some (fun field entityIdToName =>
      jsxElement
        [ "<TextField label=" +:+ dquote;
          dquote +:+ " name=" +:+ dquote;
          dquote +:+ " />" ]
        [ TText (EntityField.displayName field);
          TText (EntityField.name field) ])
  | EnumDataType.MultiLineText =>
      Some (fun field entityIdToName =>
      jsxElement
        [ "<TextField label=" +:+ dquote;
          dquote +:+ " name=" +:+ dquote;
          dquote +:+ " textarea />" ]
        [ TText (EntityField.displayName field);
          TText (EntityField.name field) ])
  | EnumDataType.Email =>
      Some (fun field entityIdToName =>
      jsxElement
        [ "<TextField type=" +:+ dquote +:+ "email" +:+ dquote +:+ " label="
            +:+ dquote;
          dquote +:+ " name=" +:+ dquote;
          dquote +:+ " />" ]
        [ TText (EntityField.displayName field);
          TText (EntityField.name field) ])
  | EnumDataType.WholeNumber =>
      Some (fun field entityIdToName =>
      jsxElement
        [ "<TextField type=" +:+ dquote +:+ "number" +:+ dquote
            +:+ " step={1} label=" +:+ dquote;
          dquote +:+ " name=" +:+ dquote;
          dquote +:+ " />" ]
        [ TText (EntityField.displayName field);
          TText (EntityField.name field) ])
  | EnumDataType.DateTime =>
      Some (fun field entityIdToName =>
      let dateOnly := FieldProperties.dateOnly (EntityField.properties field) in
      if dateOnly
      then jsxElement
          [ "<TextField type=" +:+ dquote +:+ "date" +:+ dquote +:+ " label="
              +:+ dquote;
            dquote +:+ " name=" +:+ dquote;
            dquote +:+ " />" ]
          [ TText (EntityField.displayName field);
          TText (EntityField.name field) ]
      else jsxElement
          [ "<TextField type=" +:+ dquote +:+ "datetime-local" +:+ dquote
              +:+ " label=" +:+ dquote;
            dquote +:+ " name=" +:+ dquote;
            dquote +:+ " />" ]
          [ TText (EntityField.displayName field);
          TText (EntityField.name field) ])
  | EnumDataType.DecimalNumber =>
      Some (fun field entityIdToName =>
      jsxElement
        [ "<TextField type=" +:+ dquote +:+ "number" +:+ dquote +:+ " label="
            +:+ dquote;
          dquote +:+ " name=" +:+ dquote;
          dquote +:+ " />" ]
        [ TText (EntityField.displayName field);
          TText (EntityField.name field) ])
  | EnumDataType.Lookup =>
      Some (fun field entityIdToName =>
      jsxElement
        [ "<";
          "Select label=" +:+ dquote;
          dquote +:+ " name=" +:+ dquote;
          ".id" +:+ dquote +:+ "   />" ]
        [ templateValue
            (entityIdToName
               !! FieldProperties.relatedEntityId (EntityField.properties field));
          TText (EntityField.displayName field);
          TText (EntityField.name field) ])
  | EnumDataType.MultiSelectOptionSet =>
      Some (fun field entityIdToName =>
      jsxElement
        [ "<TextField label=" +:+ dquote;
          dquote +:+ " name=" +:+ dquote;
          dquote +:+ " />" ]
        [ TText (EntityField.displayName field);
          TText (EntityField.name field) ])
  | EnumDataType.OptionSet =>
      Some (fun field entityIdToName =>
      jsxElement
        [ "<SelectField" +:+ newline +:+ "              label=" +:+ dquote;
          dquote +:+ newline +:+ "              name=" +:+ dquote;
          dquote +:+ newline +:+ "              options={[";
          "]}" +:+ newline +:+ "            />" ]
        [ TText (EntityField.displayName field);
          TText (EntityField.name field);
          TText (join ""
                   (map optionText
                      (FieldProperties.options (EntityField.properties field)))) ])
  | EnumDataType.Boolean =>
      Some (fun field entityIdToName =>
      jsxElement
        [ "<TextField type=" +:+ dquote +:+ "checkbox" +:+ dquote
            +:+ " label=" +:+ dquote;
          dquote +:+ " name=" +:+ dquote;
          dquote +:+ " />" ]
        [ TText (EntityField.displayName field);
          TText (EntityField.name field) ])
  | EnumDataType.GeographicLocation =>
      Some (fun field entityIdToName =>
      jsxElement
        [ "<TextField label=" +:+ dquote;
          dquote +:+ " name=" +:+ dquote;
          dquote +:+ " />" ]
        [ TText (EntityField.displayName field);
          TText (EntityField.name field) ])
  | EnumDataType.Id => None
  | EnumDataType.CreatedAt => None
  | EnumDataType.UpdatedAt => None
  | EnumDataType.Roles =>
      Some (fun field entityIdToName =>
      jsxElement
        [ "<TextField label=" +:+ dquote;
          dquote +:+ " name=" +:+ dquote;
          dquote +:+ " />" ]
        [ TText (EntityField.displayName field);
          TText (EntityField.name field) ])
  | EnumDataType.Username =>
      Some (fun field entityIdToName =>
      jsxElement
        [ "<TextField label=" +:+ dquote;
          dquote +:+ " name=" +:+ dquote;
          dquote +:+ "  />" ]
        [ TText (EntityField.displayName field);
          TText (EntityField.name field) ])
  | EnumDataType.Password =>
      Some (fun field entityIdToName =>
      jsxElement
        [ "<TextField type=" +:+ dquote +:+ "password" +:+ dquote
            +:+ " label=" +:+ dquote;
          dquote +:+ " name=" +:+ dquote;
          dquote +:+ "  />" ]
        [ TText (EntityField.displayName field);
          TText (EntityField.name field) ])
  end.

Section FieldInput.

(** The string value of a member of [EnumDataType], as the error message
    interpolates it. *)
Variable dataTypeName : EnumDataType.t -> string.

(** [createFieldInput]: [inl] is the message of the [Error] it throws. *)
Definition createFieldInput (field : EntityField.t)
    (entityIdToName : gmap string string) : string + JSXElement :=
  match DATA_TYPE_TO_FIELD_INPUT (EntityField.dataType field) with
  | None =>
      inl ("Can not display field " +:+ EntityField.name field
           +:+ " with data type " +:+ dataTypeName (EntityField.dataType field))
  | Some createDataTypeFieldInput =>
      inr (jsxElement ["<div>"; "</div>"]
             [TElement (createDataTypeFieldInput field entityIdToName)])
  end.

End FieldInput.

(** ** What the normalisers keep of a schema *)

(** A field after updates: same type, same optional flag, and the names of
    the attributes it had still lead its attribute list, in their order. *)
Definition fieldKept (f f' : Field.t) : Prop :=
  Field.fieldType f' = Field.fieldType f
  /\ Field.optional f' = Field.optional f
  /\ map Attribute.name (default [] (Field.attributes f))
     `prefix_of` map Attribute.name (default [] (Field.attributes f')).

(** A property after updates: a field is kept as a field, anything else is
    the same node. *)
Definition propertyKept (p p' : Property) : Prop :=
  match p with
  | PField f =>
      match p' with
      | PField f' => fieldKept f f'
      | _ => False
      end
  | _ => p' = p
  end.

Definition modelKept (m m' : Model.t) : Prop :=
  forall k p,
    Model.properties m !! k = Some p ->
    exists p', Model.properties m' !! k = Some p' /\ propertyKept p p'.

Definition schemaKept (s s' : Schema) : Prop :=
  forall j m,
    s !! j = Some (BModel m) ->
    exists m', s' !! j = Some (BModel m') /\ modelKept m m'.

(** * Properties *)

(** Closes a decidable goal about concrete data. *)
Ltac decide_by_computation := apply (bool_decide_unpack _); by vm_compute.

(** ** Attribute serialiser *)

Lemma joinElement_scalars (tokens : list string) :
  map joinElement (map Scalar tokens) = tokens.
Proof.
  induction tokens as [|t ts IH]; simpl; [reflexivity|].
  by rewrite IH.
Qed.

Lemma prepareAttribute_absent_args (kind : AttributeKind) (name : string) :
  prepareAttribute (Attribute.mk kind name None)
  = Returns (kindPrefix kind +:+ name).
Proof. reflexivity. Qed.

Lemma length_append (a b : string) :
  String.length (a +:+ b) = String.length a + String.length b.
Proof. induction a as [|ch a IH]; simpl; [reflexivity|]. by rewrite IH. Qed.

(** C2: an attribute whose [args] list is present and empty is rendered with
    an empty pair of parentheses, [@name()] or [@@name()], not as the bare
    [@name] or [@@name] that an attribute without [args] gets. *)
Theorem prepareAttribute_empty_args (kind : AttributeKind) (name : string) :
  prepareAttribute (Attribute.mk kind name (Some []))
    = Returns (kindPrefix kind +:+ name +:+ "()")
  /\ prepareAttribute (Attribute.mk kind name (Some []))
    <> prepareAttribute (Attribute.mk kind name None)
  /\ prepareAttributes (Some [Attribute.mk KindField "unique" (Some [])])
    = Returns ["@unique()"].
Proof.
  split; [reflexivity|]. split; [|reflexivity].
  intros Heq. injection Heq as Heq. apply (f_equal String.length) in Heq.
  simpl in Heq. rewrite !length_append in Heq. simpl in Heq. lia.
Qed.

(** How an attribute with an [args] list is rendered when every argument can
    be rendered: [@name] or [@@name], then one pair of parentheses around the
    rendered arguments joined with a comma and a space, an argument without a
    rendering counting as the empty string.  A scalar renders as its token,
    an array of scalars as the tokens joined with a comma and a space inside
    square brackets, a keyValue with a scalar value as [key: value], a
    function call as nothing. *)
Lemma prepareAttribute_rendering :
  (forall kind name args rendered,
      traverse prepareArg args = Returns rendered ->
      prepareAttribute (Attribute.mk kind name (Some args))
      = Returns (kindPrefix kind +:+ name +:+ "("
                 +:+ join ", " (map (default "") rendered) +:+ ")"))
  /\ (forall token,
         prepareArg (AttributeArgument.mk (Scalar token))
         = Returns (Some token))
  /\ (forall tokens,
         prepareArg
           (AttributeArgument.mk (ArrayValue (Some (map Scalar tokens))))
         = Returns (Some ("[" +:+ join ", " tokens +:+ "]")))
  /\ (forall key token,
         prepareArg (AttributeArgument.mk (KeyValue key (Scalar token)))
         = Returns (Some (key +:+ ": " +:+ token)))
  /\ (forall name params,
         prepareArg (AttributeArgument.mk (Function name params))
         = Returns None).
Proof.
  repeat split.
  - intros kind name args rendered Hargs. unfold prepareAttribute.
    cbn [Attribute.args Attribute.kind Attribute.name]. by rewrite Hargs.
  - intros tokens. unfold prepareArg; simpl. by rewrite joinElement_scalars.
Qed.

(** C8: on [@relation(fields: [authorId], references: [id])] the serialiser
    renders each keyValue as its key followed by the text [[object Object]],
    not by the array; and on an attribute whose argument is the empty array,
    which the parser gives as an array node without [args], it throws. *)
Theorem prepareAttributes_object_arguments :
  prepareAttributes (Some [relationAttribute])
  = Returns
      ["@relation(fields: [object Object], references: [object Object])"]
  /\ prepareAttributes
       (Some [Attribute.mk KindModel "index"
                (Some [AttributeArgument.mk (ArrayValue None)])])
     = Throws.
Proof. split; reflexivity. Qed.

Example prepareAttributes_map_users :
  prepareAttributes
    (Some [Attribute.mk KindModel "map"
             (Some [AttributeArgument.mk
                      (ArrayValue (Some [Scalar "a"; Scalar "b"; Scalar "c"]));
                    AttributeArgument.mk (KeyValue "name" (Scalar "idx"))]);
           Attribute.mk KindField "default"
             (Some [AttributeArgument.mk (Function "autoincrement" [])]);
           idAttribute])
  = Returns ["@@map([a, b, c], name: idx)"; "@default()"; "@id"].
Proof. reflexivity. Qed.

(** ** Schema validator *)

(** C4: on a tree without models the structural validation returns the list
    of one error, the no-models error at level Error; on a tree with at least
    one model it returns null. *)
Theorem validateSchemaProcessing_models (schemaObject : Schema) :
  (List.length (models schemaObject) = 0 ->
     validateSchemaProcessing schemaObject
     = Some [ErrorMessage.mk NoModels Error
               "A schema must contain at least one model"])
  /\ (0 < List.length (models schemaObject) ->
        validateSchemaProcessing schemaObject = None).
Proof.
  unfold validateSchemaProcessing. split; intros Hn.
  - by rewrite Hn.
  - destruct (List.length (models schemaObject)); [lia|reflexivity].
Qed.

Lemma validateSchemaProcessing_models_witness :
  validateSchemaProcessing [BOther TDatasource "db"; BOther TEnum "Role"]
  = Some [ErrorMessage.mk NoModels Error
            "A schema must contain at least one model"]
  /\ validateSchemaProcessing [BOther TDatasource "db"; BModel usersModel]
     = None.
Proof.
  split.
  - apply (validateSchemaProcessing_models
             [BOther TDatasource "db"; BOther TEnum "Role"]).
    reflexivity.
  - apply (validateSchemaProcessing_models
             [BOther TDatasource "db"; BModel usersModel]).
    simpl. lia.
Defined.

(** ** Default-property resolver *)

Lemma find_none_Forall {A : Type} (p : A -> bool) (xs : list A) :
  Forall (fun x => p x = false) xs -> List.find p xs = None.
Proof.
  induction 1 as [|x xs Hx _ IH]; simpl; [reflexivity|]. by rewrite Hx.
Qed.

Lemma find_first {A : Type} (p : A -> bool) (pre : list A) (x : A)
    (post : list A) :
  Forall (fun y => p y = false) pre -> p x = true ->
  List.find p (pre ++ x :: post) = Some x.
Proof.
  induction 1 as [|y pre Hy _ IH]; simpl; intros Hx.
  - by rewrite Hx.
  - rewrite Hy. by apply IH.
Qed.

Lemma isAttributeNamed_false (name : string) (attrs : list Attribute.t) :
  Forall (fun a => Attribute.name a <> name) attrs ->
  Forall (fun a => isAttributeNamed name a = false) attrs.
Proof.
  intros Hall. eapply Forall_impl; [exact Hall|].
  intros a Ha. unfold isAttributeNamed. by apply String.eqb_neq.
Qed.

(** C9: the resolver returns absent for a field without a [default]
    attribute; when the first [default] attribute of the field has an empty
    [args] list it throws; when the first argument of that attribute is a
    function whose name is not a key of the lookup table it returns absent. *)
Theorem prepareFiledProperties_cases `{SchemaUtils} (field : Field.t) :
  (Forall (fun a => Attribute.name a <> "default")
     (default [] (Field.attributes field)) ->
   prepareFiledProperties field = Returns None)
  /\ (forall pre a post,
         Field.attributes field = Some (pre ++ a :: post) ->
         Forall (fun x => Attribute.name x <> "default") pre ->
         Attribute.name a = "default" ->
         (Attribute.args a = Some [] ->
          prepareFiledProperties field = Throws)
         /\ (forall name params rest,
                Attribute.args a
                = Some (AttributeArgument.mk (Function name params) :: rest) ->
                idTypePropertyMap !! name = None ->
                prepareFiledProperties field = Returns None)).
Proof.
  split.
  - intros Hno. unfold prepareFiledProperties.
    by rewrite (find_none_Forall _ _ (isAttributeNamed_false _ _ Hno)).
  - intros pre a post Hattrs Hpre Ha.
    assert (Hfind : List.find (isAttributeNamed "default")
                      (default [] (Field.attributes field)) = Some a).
    { rewrite Hattrs. simpl. apply find_first.
      - by apply isAttributeNamed_false.
      - unfold isAttributeNamed. by apply String.eqb_eq. }
    unfold prepareFiledProperties. rewrite Hfind. split.
    + intros Hargs. by rewrite Hargs.
    + intros name params rest Hargs Hmiss. rewrite Hargs. simpl.
      unfold idTypeProperty. simpl. by rewrite Hmiss.
Qed.

Lemma prepareFiledProperties_cases_witness :
  @prepareFiledProperties exampleUtils
     (Field.mk "email" (Some "String") true (Some [uniqueAttribute]))
  = Returns None
  /\ @prepareFiledProperties exampleUtils
       (Field.mk "n" (Some "Int") false
          (Some [idAttribute; Attribute.mk KindField "default" (Some [])]))
     = Throws
  /\ @prepareFiledProperties exampleUtils
       (Field.mk "createdAt" (Some "DateTime") false
          (Some [Attribute.mk KindField "default"
                   (Some [AttributeArgument.mk (Function "now" [])])]))
     = Returns None.
Proof.
  split; [|split].
  - apply (@prepareFiledProperties_cases exampleUtils).
    simpl. repeat constructor. discriminate.
  - eapply (proj2 (@prepareFiledProperties_cases exampleUtils _)
              [idAttribute] _ []);
      [reflexivity | repeat constructor; discriminate | reflexivity
      | reflexivity].
  - eapply (proj2 (@prepareFiledProperties_cases exampleUtils _) [] _ []);
      [reflexivity | constructor | reflexivity | reflexivity | reflexivity].
Defined.

Example prepareFiledProperties_autoincrement :
  @prepareFiledProperties exampleUtils
     (Field.mk "id" (Some "Int") false (Some [idAttribute; autoincrementAttribute]))
  = Returns (Some "AUTO_INCREMENT").
Proof. reflexivity. Qed.

(** ** Entity projector *)

Lemma traverse_Forall2 {A B : Type} (f : A -> Outcome B) (xs : list A)
    (ys : list B) :
  traverse f xs = Returns ys -> Forall2 (fun x y => f x = Returns y) xs ys.
Proof.
  revert ys. induction xs as [|x xs IH]; simpl; intros ys Hys.
  - injection Hys as <-. constructor.
  - destruct (f x) as [y|] eqn:Hy; simpl in Hys; [|discriminate].
    destruct (traverse f xs) as [ys'|]; simpl in Hys; [|discriminate].
    injection Hys as <-. constructor; [exact Hy | by apply IH].
Qed.

Lemma prepareEntityField_returns `{SchemaUtils} (field : Field.t)
    (entityField : CreateEntityFieldInput.t IdTypeProperties) :
  prepareEntityField field = Returns entityField ->
  exists fieldProperties serialized,
    prepareFiledProperties field = Returns fieldProperties
    /\ prepareAttributes (Field.attributes field) = Returns serialized
    /\ entityField
       = CreateEntityFieldInput.mk IdTypeProperties
           (Field.name field) (Field.name field) "field"
           (Field.optional field) (someAttributeNamed "unique" field)
           false None fieldProperties
           (filterOutAmplicationAttributes serialized).
Proof.
  unfold prepareEntityField.
  destruct (prepareFiledProperties field) as [p|]; simpl; [|discriminate].
  destruct (prepareAttributes (Field.attributes field)) as [attrs|]; simpl;
    [|discriminate].
  intros [= <-]. by exists p, attrs.
Qed.

(** C1: the projected field's [required] is the field's [optional] flag
    itself, not its negation: a field that is not optional is projected with
    [required = false], an optional one with [required = true]. *)
Theorem prepareEntityField_required `{SchemaUtils} (field : Field.t)
    (entityField : CreateEntityFieldInput.t IdTypeProperties) :
  prepareEntityField field = Returns entityField ->
  CreateEntityFieldInput.required entityField = Field.optional field.
Proof.
  intros Hret. apply prepareEntityField_returns in Hret as (p & a & _ & _ & ->).
  reflexivity.
Qed.

Lemma prepareEntityField_required_witness :
  CreateEntityFieldInput.required
    (CreateEntityFieldInput.mk (@IdTypeProperties exampleUtils)
       "email" "email" "field" false None false None None [])
  = false.
Proof.
  apply (@prepareEntityField_required exampleUtils
           (Field.mk "email" (Some "String") false None)).
  reflexivity.
Defined.

(** C10: whenever the projector returns an entity for a model, the entity's
    [name] and [displayName] are both the model's name; whenever it returns
    the field records of a model, there is one record for each field, in
    order, and its [name] and [displayName] are both the field's name.  The
    model is the one the projector is given, that is the normalised one, so
    the record of a renamed primary key has the display name [id]. *)
Theorem displayName_is_name `{SchemaUtils} (model : Model.t) :
  (forall entity,
      prepareEntity model = Returns entity ->
      CreateEntityInput.name entity = Model.name model
      /\ CreateEntityInput.displayName entity = Model.name model)
  /\ (forall records,
         prepareEntityFields model = Returns records ->
         Forall2
           (fun field entityField =>
              CreateEntityFieldInput.name entityField = Field.name field
              /\ CreateEntityFieldInput.displayName entityField
                 = Field.name field)
           (modelFields model) records).
Proof.
  split.
  - intros entity. unfold prepareEntity.
    destruct (prepareAttributes _) as [attrs|]; simpl; [|discriminate].
    by intros [= <-].
  - intros records Hret. apply traverse_Forall2 in Hret.
    eapply Forall2_impl; [exact Hret|].
    intros field entityField Hfield.
    apply prepareEntityField_returns in Hfield as (p & a & _ & _ & ->).
    by simpl.
Qed.

Lemma displayName_is_name_witness :
  (CreateEntityInput.name usersEntity = Model.name normalizedUsersModel
   /\ CreateEntityInput.displayName usersEntity
      = Model.name normalizedUsersModel)
  /\ Forall2
       (fun field entityField =>
          CreateEntityFieldInput.name entityField = Field.name field
          /\ CreateEntityFieldInput.displayName entityField = Field.name field)
       (modelFields normalizedUsersModel) usersFieldRecords.
Proof.
  split.
  - apply (proj1 (@displayName_is_name exampleUtils normalizedUsersModel)).
    reflexivity.
  - apply (proj2 (@displayName_is_name exampleUtils normalizedUsersModel)).
    reflexivity.
Defined.

(** The schema [usersSchema] through the pipeline and the projector: the
    model has the singular name and the mapping attribute, the primary key is
    renamed to [id]. *)
Example prepareSchema_users :
  prepareSchema (operations (H := exampleUtils)) usersSchema
  = Returns [BOther TDatasource "db"; BModel normalizedUsersModel]
  /\ @prepareEntity exampleUtils normalizedUsersModel = Returns usersEntity
  /\ @prepareEntityFields exampleUtils normalizedUsersModel
     = Returns usersFieldRecords.
Proof. repeat split. Qed.

(** [prepareEntitiesWithFields] itself never gets to the projector: once the
    pipeline has returned, the call of the missing [debugSchema] throws. *)
Lemma prepareEntitiesWithFields_throws `{SchemaUtils} (schema : Schema) :
  prepareEntitiesWithFields schema = Throws.
Proof.
  unfold prepareEntitiesWithFields.
  by destruct (prepareSchema operations schema).
Qed.

(** ** Builder lookups and updates *)

Lemma findLast_none {A : Type} (p : A -> bool) (xs : list A) :
  Forall (fun x => p x = false) xs -> findLast p xs = None.
Proof.
  induction 1 as [|x xs Hx _ IH]; simpl; [reflexivity|]. by rewrite IH, Hx.
Qed.

Lemma findLast_middle {A : Type} (p : A -> bool) (pre : list A) (x : A)
    (post : list A) :
  p x = true -> Forall (fun y => p y = false) post ->
  findLast p (pre ++ x :: post) = Some (List.length pre).
Proof.
  intros Hx Hpost. induction pre as [|y pre IH]; simpl.
  - by rewrite (findLast_none _ _ Hpost), Hx.
  - by rewrite IH.
Qed.

Lemma alter_middle {A : Type} (f : A -> A) (pre : list A) (x : A)
    (post : list A) :
  alter f (List.length pre) (pre ++ x :: post) = pre ++ f x :: post.
Proof.
  rewrite <- (Nat.add_0_r (List.length pre)). by rewrite alter_app_r.
Qed.

Lemma models_app (a b : Schema) : models (a ++ b) = models a ++ models b.
Proof. apply omap_app. Qed.

Lemma elem_of_models (m : Model.t) (s : Schema) :
  m ∈ models s <-> BModel m ∈ s.
Proof.
  unfold models. rewrite list_elem_of_omap. split.
  - intros ([m'|t n] & Hin & Heq); [|discriminate]. by injection Heq as ->.
  - intros Hin. by exists (BModel m).
Qed.

Lemma modelNames_app (a b : Schema) :
  modelNames (a ++ b) = modelNames a ++ modelNames b.
Proof. unfold modelNames. by rewrite models_app, map_app. Qed.

Lemma isModelNamed_absent (name : string) (s : Schema) :
  name ∉ modelNames s -> Forall (fun b => isModelNamed name b = false) s.
Proof.
  induction s as [|[m|t n] s IH]; intros Hnot.
  - constructor.
  - unfold modelNames in Hnot. simpl in Hnot.
    apply not_elem_of_cons in Hnot as [Hne Hnot].
    constructor; [|by apply IH].
    simpl. apply String.eqb_neq. congruence.
  - constructor; [reflexivity|]. by apply IH.
Qed.

Lemma model_found (name : string) (pre : Schema) (m : Model.t)
    (post : Schema) (sub par : option Builder.Ref) :
  Model.name m = name ->
  Forall (fun b => isModelNamed name b = false) post ->
  Builder.model name (Builder.mk (pre ++ BModel m :: post) sub par)
  = Builder.mk (pre ++ BModel m :: post)
      (Some (Builder.RModel (List.length pre))) par.
Proof.
  intros Hname Hpost. unfold Builder.model. simpl.
  rewrite findLast_middle; [reflexivity| |exact Hpost].
  simpl. by apply String.eqb_eq.
Qed.

Section Renaming.
Context `{SchemaUtils}.

Lemma renameModelAt_spec (pre : Schema) (m : Model.t) (post : Schema)
    (sub par : option Builder.Ref) :
  (isInvalidModelName (Model.name m) = true ->
   Forall (fun b => isModelNamed (Model.name m) b = false) post) ->
  exists sub',
    renameModelAt (List.length pre)
      (Builder.mk (pre ++ BModel m :: post) sub par)
    = Returns (Builder.mk (pre ++ BModel (renamedModel m) :: post) sub' par).
Proof.
  intros Hpost. unfold renameModelAt, renamedModel.
  cbn [Builder.schema]. rewrite list_lookup_middle by reflexivity.
  destruct (isInvalidModelName (Model.name m)) eqn:Hinv; [|by eexists].
  specialize (Hpost eq_refl).
  rewrite model_found by done.
  unfold Builder.blockAttribute.
  cbn [Builder.currentModel Builder.subject Builder.schema Builder.parent].
  rewrite alter_middle.
  cbn [mbind Outcome_bind onModel].
  rewrite model_found by done.
  unfold Builder.then_, Builder.subjectNode.
  cbn [Builder.subject Builder.schema].
  rewrite list_lookup_middle by reflexivity.
  unfold Builder.putSubject.
  cbn [Builder.subject Builder.schema Builder.parent setNodeName nodeName].
  rewrite alter_middle. by eexists.
Qed.

Lemma renamedModel_name_valid (m : Model.t) :
  isInvalidModelName (Model.name m) = false -> renamedModel m = m.
Proof. intros Hv. unfold renamedModel. by rewrite Hv. Qed.

Lemma handleModelNamesRenaming_loop (post pre0 : Schema)
    (sub par : option Builder.Ref) :
  NoDup (modelNames (pre0 ++ post)) ->
  exists sub',
    forEach renameModelAt (modelIndicesFrom (List.length pre0) post)
      (Builder.mk (map (onModel renamedModel) pre0 ++ post) sub par)
    = Returns
        (Builder.mk (map (onModel renamedModel) (pre0 ++ post)) sub' par).
Proof.
  revert pre0 sub. induction post as [|b post IH]; intros pre0 sub Hnd.
  - simpl. rewrite !app_nil_r. by eexists.
  - assert (Hcons : pre0 ++ b :: post = (pre0 ++ [b]) ++ post)
      by by rewrite <- app_assoc.
    assert (Hlen : S (List.length pre0) = List.length (pre0 ++ [b]))
      by (rewrite length_app; simpl; lia).
    destruct b as [m|t n].
    + cbn [modelIndicesFrom forEach].
      destruct (renameModelAt_spec (map (onModel renamedModel) pre0) m post
                  sub par) as [sub1 Hstep].
      { intros Hinv. apply isModelNamed_absent.
        rewrite modelNames_app in Hnd. apply NoDup_app in Hnd as (_ & _ & Hnd).
        unfold modelNames in Hnd. simpl in Hnd. by apply NoDup_cons in Hnd as [? _]. }
      rewrite length_map in Hstep. rewrite Hstep. cbn [mbind Outcome_bind].
      rewrite Hlen, Hcons.
      destruct (IH (pre0 ++ [BModel m]) sub1) as [sub2 Hrest];
        [by rewrite <- Hcons|].
      rewrite map_app in Hrest. simpl in Hrest.
      rewrite <- app_assoc in Hrest. simpl in Hrest.
      rewrite Hrest. by eexists.
    + cbn [modelIndicesFrom].
      rewrite Hlen, Hcons.
      destruct (IH (pre0 ++ [BOther t n]) sub) as [sub2 Hrest];
        [by rewrite <- Hcons|].
      rewrite map_app in Hrest. simpl in Hrest.
      rewrite <- app_assoc in Hrest. simpl in Hrest.
      rewrite Hrest. by eexists.
Qed.
End Renaming.

(** ** The id field normaliser, one model *)

Lemma find_decompose {A : Type} (p : A -> bool) (xs : list A) (x : A) :
  List.find p xs = Some x ->
  exists pre post,
    xs = pre ++ x :: post /\ Forall (fun y => p y = false) pre /\ p x = true.
Proof.
  induction xs as [|y xs IH]; simpl; [discriminate|].
  destruct (p y) eqn:Hy.
  - intros [= <-]. by exists [], xs.
  - intros Hfind. destruct (IH Hfind) as (pre & post & -> & Hpre & Hx).
    exists (y :: pre), post. repeat split; [by constructor|exact Hx].
Qed.

Lemma find_none_findIndex {A : Type} (p : A -> bool) (xs : list A) :
  List.find p xs = None -> findIndex p xs = None.
Proof.
  induction xs as [|y xs IH]; simpl; [reflexivity|].
  destruct (p y); [discriminate|]. intros Hnone. by rewrite IH.
Qed.

Lemma findIndex_first {A : Type} (p : A -> bool) (pre : list A) (x : A)
    (post : list A) :
  Forall (fun y => p y = false) pre -> p x = true ->
  findIndex p (pre ++ x :: post) = Some (List.length pre).
Proof.
  induction 1 as [|y pre Hy _ IH]; simpl; intros Hx.
  - by rewrite Hx.
  - rewrite Hy. by rewrite IH.
Qed.

Lemma isFieldNamed_absent (name : string) (ps : list Property) :
  name ∉ propertyFieldNames ps ->
  Forall (fun p => isFieldNamed name p = false) ps.
Proof.
  induction ps as [|p ps IH]; intros Hnot; [constructor|].
  destruct p as [f| | |]; unfold propertyFieldNames in *; simpl in *.
  - apply not_elem_of_cons in Hnot as [Hne Hnot].
    constructor; [|by apply IH]. apply String.eqb_neq. congruence.
  - constructor; [reflexivity|by apply IH].
  - constructor; [reflexivity|by apply IH].
  - constructor; [reflexivity|by apply IH].
Qed.

Lemma propertyFieldNames_app (a b : list Property) :
  propertyFieldNames (a ++ b) = propertyFieldNames a ++ propertyFieldNames b.
Proof. unfold propertyFieldNames. by rewrite omap_app, map_app. Qed.

Lemma field_found (name : string) (pre : Schema) (n : string)
    (ppre : list Property) (f : Field.t) (ppost : list Property)
    (post : Schema) (par : option Builder.Ref) :
  Field.name f = name ->
  Forall (fun p => isFieldNamed name p = false) ppost ->
  Builder.field name
    (Builder.mk (pre ++ BModel (Model.mk n (ppre ++ PField f :: ppost)) :: post)
       (Some (Builder.RModel (List.length pre))) par)
  = Returns
      (Builder.mk (pre ++ BModel (Model.mk n (ppre ++ PField f :: ppost)) :: post)
         (Some (Builder.RField (List.length pre) (List.length ppre)))
         (Some (Builder.RModel (List.length pre)))).
Proof.
  intros Hname Hpost. unfold Builder.field.
  cbn [Builder.currentModel Builder.subject Builder.schema].
  rewrite list_lookup_middle by reflexivity.
  cbn [Model.properties].
  rewrite findLast_middle; [reflexivity| |exact Hpost].
  simpl. by apply String.eqb_eq.
Qed.

Lemma renameIdFieldAt_rename (pre : Schema) (n : string)
    (ppre : list Property) (f : Field.t) (ppost : list Property)
    (post : Schema) (sub par : option Builder.Ref) :
  Forall (fun p => isIdField p = false) ppre ->
  isIdField (PField f) = true ->
  Field.name f <> "id" ->
  Forall (fun b => isModelNamed n b = false) post ->
  Forall (fun p => isFieldNamed (Field.name f) p = false) ppost ->
  exists sub' par',
    renameIdFieldAt (List.length pre)
      (Builder.mk
         (pre ++ BModel (Model.mk n (ppre ++ PField f :: ppost)) :: post)
         sub par)
    = Returns
        (Builder.mk
           (pre ++ BModel (Model.mk n (ppre ++ PField (renamedIdField f) :: ppost))
                :: post)
           sub' par').
Proof.
  intros Hppre Hf Hname Hpost Hppost. unfold renameIdFieldAt, findIdField.
  cbn [Builder.schema]. rewrite list_lookup_middle by reflexivity.
  cbn [Model.properties Model.name].
  rewrite (find_first _ _ _ _ Hppre Hf).
  apply String.eqb_neq in Hname. rewrite Hname. cbn [negb].
  rewrite model_found by done.
  rewrite field_found by done. cbn [mbind Outcome_bind].
  unfold Builder.attribute.
  cbn [Builder.subject Builder.parent Builder.schema].
  rewrite alter_middle. cbn [onModel Model.properties Model.set_properties Model.name].
  rewrite alter_middle. cbn [onField mbind Outcome_bind].
  unfold Model.set_properties. cbn [Model.name].
  rewrite model_found by done.
  rewrite field_found by done. cbn [mbind Outcome_bind].
  unfold Builder.then_, Builder.subjectNode.
  cbn [Builder.subject Builder.schema].
  rewrite list_lookup_middle by reflexivity. cbn [Model.properties].
  rewrite list_lookup_middle by reflexivity.
  unfold Builder.putSubject.
  cbn [Builder.subject Builder.schema Builder.parent setNodeName].
  rewrite alter_middle. cbn [onModel Model.properties Model.set_properties Model.name].
  rewrite alter_middle. cbn [onField]. by eexists _, _.
Qed.

Lemma normalizedIdModel_first (n : string) (ppre : list Property)
    (f : Field.t) (ppost : list Property) :
  Forall (fun p => isIdField p = false) ppre ->
  isIdField (PField f) = true ->
  normalizedIdModel (Model.mk n (ppre ++ PField f :: ppost))
  = Model.mk n (ppre ++ PField (canonicalIdField f) :: ppost).
Proof.
  intros Hppre Hf. unfold normalizedIdModel. cbn [Model.properties].
  rewrite (findIndex_first _ _ _ _ Hppre Hf).
  unfold Model.set_properties. cbn [Model.name Model.properties].
  by rewrite alter_middle.
Qed.

Lemma renameIdFieldAt_spec (pre : Schema) (m : Model.t) (post : Schema)
    (sub par : option Builder.Ref) :
  Forall (fun b => isModelNamed (Model.name m) b = false) post ->
  NoDup (fieldNames m) ->
  exists sub' par',
    renameIdFieldAt (List.length pre)
      (Builder.mk (pre ++ BModel m :: post) sub par)
    = Returns
        (Builder.mk (pre ++ BModel (normalizedIdModel m) :: post) sub' par').
Proof.
  intros Hpost Hnd. destruct m as [n props].
  destruct (List.find isIdField props) as [p|] eqn:Hfind.
  - apply find_decompose in Hfind as (ppre & ppost & -> & Hppre & Hp).
    destruct p as [f| | |]; try discriminate.
    rewrite normalizedIdModel_first by done. unfold canonicalIdField.
    destruct (String.eqb (Field.name f) "id") eqn:Hid.
    + unfold renameIdFieldAt, findIdField. cbn [Builder.schema].
      rewrite list_lookup_middle by reflexivity. cbn [Model.properties].
      rewrite (find_first _ _ _ _ Hppre Hp), Hid. by eexists _, _.
    + apply renameIdFieldAt_rename; try done.
      * by apply String.eqb_neq.
      * apply isFieldNamed_absent.
        unfold fieldNames in Hnd. cbn [Model.properties] in Hnd.
        rewrite propertyFieldNames_app in Hnd.
        apply NoDup_app in Hnd as (_ & _ & Hnd).
        unfold propertyFieldNames in Hnd. simpl in Hnd.
        by apply NoDup_cons in Hnd as [? _].
  - unfold renameIdFieldAt, findIdField, normalizedIdModel.
    cbn [Builder.schema]. rewrite list_lookup_middle by reflexivity.
    cbn [Model.properties]. rewrite Hfind.
    rewrite (find_none_findIndex _ _ Hfind). by eexists _, _.
Qed.

Lemma normalizedIdModel_name (m : Model.t) :
  Model.name (normalizedIdModel m) = Model.name m.
Proof. unfold normalizedIdModel. by destruct (findIndex _ _). Qed.

Lemma handleIdField_loop (post pre0 : Schema)
    (sub par : option Builder.Ref) :
  NoDup (modelNames (pre0 ++ post)) ->
  (forall m, m ∈ models post -> NoDup (fieldNames m)) ->
  exists sub' par',
    forEach renameIdFieldAt (modelIndicesFrom (List.length pre0) post)
      (Builder.mk (map (onModel normalizedIdModel) pre0 ++ post) sub par)
    = Returns
        (Builder.mk (map (onModel normalizedIdModel) (pre0 ++ post))
           sub' par').
Proof.
  revert pre0 sub par.
  induction post as [|b post IH]; intros pre0 sub par Hnd Hfields.
  - simpl. rewrite !app_nil_r. by eexists _, _.
  - assert (Hcons : pre0 ++ b :: post = (pre0 ++ [b]) ++ post)
      by by rewrite <- app_assoc.
    assert (Hlen : S (List.length pre0) = List.length (pre0 ++ [b]))
      by (rewrite length_app; simpl; lia).
    assert (Hrest : forall m, m ∈ models post -> NoDup (fieldNames m)).
    { intros m Hin. apply Hfields. apply elem_of_models.
      apply list_elem_of_further. by apply elem_of_models. }
    destruct b as [m|t n].
    + cbn [modelIndicesFrom forEach].
      destruct (renameIdFieldAt_spec (map (onModel normalizedIdModel) pre0)
                  m post sub par) as (sub1 & par1 & Hstep).
      { apply isModelNamed_absent.
        rewrite modelNames_app in Hnd. apply NoDup_app in Hnd as (_ & _ & Hnd).
        unfold modelNames in Hnd. simpl in Hnd.
        by apply NoDup_cons in Hnd as [? _]. }
      { apply Hfields. apply elem_of_models. apply list_elem_of_here. }
      rewrite length_map in Hstep. rewrite Hstep. cbn [mbind Outcome_bind].
      rewrite Hlen, Hcons.
      destruct (IH (pre0 ++ [BModel m]) sub1 par1) as (sub2 & par2 & Hgo);
        [by rewrite <- Hcons|exact Hrest|].
      rewrite map_app in Hgo. simpl in Hgo.
      rewrite <- app_assoc in Hgo. simpl in Hgo.
      rewrite Hgo. by eexists _, _.
    + cbn [modelIndicesFrom].
      rewrite Hlen, Hcons.
      destruct (IH (pre0 ++ [BOther t n]) sub par) as (sub2 & par2 & Hgo);
        [by rewrite <- Hcons|exact Hrest|].
      rewrite map_app in Hgo. simpl in Hgo.
      rewrite <- app_assoc in Hgo. simpl in Hgo.
      rewrite Hgo. by eexists _, _.
Qed.

(** ** Normalisers that have nothing to do *)

Lemma forEach_fixed {A S : Type} (f : A -> S -> Outcome S) (xs : list A)
    (s : S) :
  (forall x, f x s = Returns s) -> forEach f xs s = Returns s.
Proof.
  intros Hfix. induction xs as [|x xs IH]; simpl; [reflexivity|].
  by rewrite Hfix.
Qed.

Lemma existsb_alter {A : Type} (q : A -> bool) (g : A -> A) (i : nat)
    (xs : list A) :
  (forall x, q (g x) = q x) -> existsb q (alter g i xs) = existsb q xs.
Proof.
  intros Hq. revert i. induction xs as [|x xs IH]; intros [|i]; simpl;
    try reflexivity.
  - by rewrite Hq.
  - change (list_alter g i xs) with (alter g i xs). by rewrite IH.
Qed.

Lemma attachAttribute_keeps (n name : string)
    (args : list AttributeArgument.t) (attrs : list Attribute.t) :
  existsb (isAttributeNamed n) attrs = true ->
  existsb (isAttributeNamed n) (attachAttribute name args attrs) = true.
Proof.
  intros Hn. unfold attachAttribute.
  destruct (findLast (isAttributeNamed name) attrs).
  - by rewrite existsb_alter.
  - rewrite existsb_app, Hn. reflexivity.
Qed.

Lemma findLast_some {A : Type} (p : A -> bool) (xs : list A) (i : nat) :
  findLast p xs = Some i -> exists x, xs !! i = Some x /\ p x = true.
Proof.
  revert i. induction xs as [|y xs IH]; simpl; intros i; [discriminate|].
  destruct (findLast p xs) as [j|].
  - intros [= <-]. destruct (IH j eq_refl) as (x & Hx & Hp). by exists x.
  - destruct (p y) eqn:Hy; [|discriminate]. intros [= <-]. by exists y.
Qed.

(** When at most one element satisfies [p], scanning for the last match and
    scanning for the first one select the same element: under distinct names
    the direction in which the builder scans does not matter. *)
Lemma findLast_findIndex {A : Type} (p : A -> bool) (xs : list A) :
  (forall i j x y,
      xs !! i = Some x -> xs !! j = Some y -> p x = true -> p y = true ->
      i = j) ->
  findLast p xs = findIndex p xs.
Proof.
  induction xs as [|x xs IH]; intros Huniq; simpl; [reflexivity|].
  destruct (p x) eqn:Hx.
  - destruct (findLast p xs) as [j|] eqn:Hlast; [|reflexivity].
    apply findLast_some in Hlast as (y & Hj & Hy).
    discriminate (Huniq 0 (S j) x y eq_refl Hj Hx Hy).
  - rewrite IH; [by destruct (findIndex p xs)|].
    intros i j a b Hi Hj Ha Hb.
    by injection (Huniq (S i) (S j) a b Hi Hj Ha Hb).
Qed.

(** The attribute the id field normaliser attaches: the renamed field has a
    [map] attribute whose only argument is the original name, and when the
    field had no [map] attribute it is a new one at the end. *)
Lemma renamedIdField_map (f : Field.t) :
  exists attrs a,
    Field.attributes (renamedIdField f) = Some attrs
    /\ a ∈ attrs
    /\ Attribute.name a = "map"
    /\ Attribute.args a = Some [AttributeArgument.mk (Scalar (Field.name f))].
Proof.
  unfold renamedIdField, attachAttribute. cbn [Field.attributes].
  destruct (findLast _ _) as [i|] eqn:Hlast.
  - apply findLast_some in Hlast as (a & Hi & Ha).
    eexists _, (Attribute.set_args a
                  (Some [AttributeArgument.mk (Scalar (Field.name f))])).
    split; [reflexivity|]. split; [|split].
    + apply list_elem_of_lookup. exists i.
      rewrite list_lookup_alter, Hi. by rewrite decide_True.
    + simpl. by apply String.eqb_eq.
    + reflexivity.
  - eexists _, (Attribute.mk KindField "map"
                  (Some [AttributeArgument.mk (Scalar (Field.name f))])).
    split; [reflexivity|]. split; [|split; reflexivity].
    apply elem_of_app. right. apply list_elem_of_here.
Qed.

Lemma renamedIdField_appends (f : Field.t) :
  Forall (fun a => Attribute.name a <> "map") (default [] (Field.attributes f)) ->
  Field.attributes (renamedIdField f)
  = Some (default [] (Field.attributes f)
          ++ [Attribute.mk KindField "map"
                (Some [AttributeArgument.mk (Scalar (Field.name f))])]).
Proof.
  intros Hno. unfold renamedIdField, attachAttribute. cbn [Field.attributes].
  by rewrite (findLast_none _ _ (isAttributeNamed_false _ _ Hno)).
Qed.

Section Settled.
Context `{SchemaUtils}.

Lemma handleModelNamesRenaming_settled (builder : Builder.t) :
  (forall m, m ∈ models (Builder.schema builder) ->
             isInvalidModelName (Model.name m) = false) ->
  handleModelNamesRenaming builder = Returns builder.
Proof.
  intros Hvalid. apply forEach_fixed. intros i. unfold renameModelAt.
  destruct (Builder.schema builder !! i) as [[m|t n]|] eqn:Hi;
    try reflexivity.
  rewrite Hvalid; [reflexivity|].
  apply elem_of_models. by eapply list_elem_of_lookup_2.
Qed.

Lemma handleIdField_settled (builder : Builder.t) :
  (forall m, m ∈ models (Builder.schema builder) -> idSettled m) ->
  handleIdField builder = Returns builder.
Proof.
  intros Hsettled. apply forEach_fixed. intros i. unfold renameIdFieldAt.
  destruct (Builder.schema builder !! i) as [[m|t n]|] eqn:Hi;
    try reflexivity.
  assert (Hm : idSettled m).
  { apply Hsettled, elem_of_models. by eapply list_elem_of_lookup_2. }
  unfold idSettled in Hm. destruct (findIdField m) as [f|]; [|reflexivity].
  by rewrite Hm.
Qed.

Lemma isIdField_canonical (f : Field.t) :
  isIdField (PField f) = true -> isIdField (PField (canonicalIdField f)) = true.
Proof.
  unfold canonicalIdField. destruct (String.eqb (Field.name f) "id");
    [done|].
  unfold isIdField, renamedIdField. cbn [Field.attributes].
  destruct (Field.attributes f) as [attrs|]; simpl; [|discriminate].
  apply attachAttribute_keeps.
Qed.

Lemma canonicalIdField_name (f : Field.t) :
  Field.name (canonicalIdField f) = "id".
Proof.
  unfold canonicalIdField.
  destruct (String.eqb (Field.name f) "id") eqn:Hid; [|reflexivity].
  by apply String.eqb_eq.
Qed.

Lemma idSettled_normalized (m : Model.t) : idSettled (normalizedIdModel m).
Proof.
  destruct m as [n props].
  destruct (List.find isIdField props) as [p|] eqn:Hfind.
  - apply find_decompose in Hfind as (ppre & ppost & -> & Hppre & Hp).
    destruct p as [f| | |]; try discriminate.
    rewrite normalizedIdModel_first by done.
    unfold idSettled, findIdField. cbn [Model.properties].
    rewrite (find_first _ _ _ _ Hppre (isIdField_canonical f Hp)).
    apply canonicalIdField_name.
  - unfold normalizedIdModel. cbn [Model.properties].
    rewrite (find_none_findIndex _ _ Hfind).
    unfold idSettled, findIdField. cbn [Model.properties]. by rewrite Hfind.
Qed.

Lemma handleModelNamesRenaming_schema (s : Schema)
    (sub par : option Builder.Ref) :
  NoDup (modelNames s) ->
  exists sub',
    handleModelNamesRenaming (Builder.mk s sub par)
    = Returns (Builder.mk (map (onModel renamedModel) s) sub' par).
Proof.
  intros Hnd. apply (handleModelNamesRenaming_loop s [] sub par Hnd).
Qed.

Lemma handleIdField_schema (s : Schema) (sub par : option Builder.Ref) :
  NoDup (modelNames s) ->
  (forall m, m ∈ models s -> NoDup (fieldNames m)) ->
  exists sub' par',
    handleIdField (Builder.mk s sub par)
    = Returns (Builder.mk (map (onModel normalizedIdModel) s) sub' par').
Proof.
  intros Hnd Hfields. apply (handleIdField_loop s [] sub par Hnd Hfields).
Qed.

Lemma lookup_map_onModel (g : Model.t -> Model.t) (s : Schema) (i : nat)
    (m : Model.t) :
  s !! i = Some (BModel m) ->
  map (onModel g) s !! i = Some (BModel (g m)).
Proof.
  intros Hi. change (map (onModel g) s) with (onModel g <$> s).
  by rewrite list_lookup_fmap, Hi.
Qed.

End Settled.

(** ** The two normalisers and the pipeline *)

Lemma models_map_onModel (g : Model.t -> Model.t) (s : Schema) :
  models (map (onModel g) s) = map g (models s).
Proof.
  induction s as [|[m|t n] s IH]; simpl; [reflexivity| |exact IH].
  unfold models in *. simpl. by rewrite IH.
Qed.

Lemma propertyFieldNames_mapBlockAttribute (ps : list Property)
    (original : string) :
  propertyFieldNames (ps ++ [mapBlockAttribute original])
  = propertyFieldNames ps.
Proof. rewrite propertyFieldNames_app. simpl. by rewrite app_nil_r. Qed.




(** C5: [Users] and [User] are two models of one schema.  Once [Users] is
    renamed both are called [User], and the id field normaliser, which looks
    the model up by name, reaches the second one for both: the primary key
    [userId] of the first model keeps its name and gets no mapping attribute,
    and the second model gets a new field in its place. *)
Theorem handleIdField_same_name_models :
  (b ← @handleModelNamesRenaming exampleUtils (Builder.create usersAndUser);
   Returns (Builder.getSchema b))
  = Returns sameNameModels
  /\ (b ← handleIdField (Builder.create sameNameModels);
      Returns (Builder.getSchema b))
     = Returns sameNameModelsAfter
  /\ prepareSchema (operations (H := exampleUtils)) usersAndUser
     = Returns sameNameModelsAfter.
Proof. repeat split. Qed.

(** X14: the id field normaliser on a schema whose model names are pairwise
    distinct and whose field names are pairwise distinct inside each model:
    in every model it takes the first property that is a field with an [@id]
    attribute; when that field is not called [id] and has no [map] attribute,
    the field is renamed to [id] and [@map] with the original name as its one
    argument is added after its attributes, the other properties staying as
    they are; when the field is called [id], or when no field carries [@id],
    the model is left as it is. *)
Theorem handleIdField_wellformed (s : Schema)
    (sub par : option Builder.Ref) :
  NoDup (modelNames s) ->
  Forall (fun m => NoDup (fieldNames m)) (models s) ->
  exists builder',
    handleIdField (Builder.mk s sub par) = Returns builder'
    /\ forall i m,
         s !! i = Some (BModel m) ->
         (forall ppre f ppost,
             Model.properties m = ppre ++ PField f :: ppost ->
             Forall (fun p => isIdField p = false) ppre ->
             isIdField (PField f) = true ->
             (Field.name f <> "id" ->
              Forall (fun a => Attribute.name a <> "map")
                (default [] (Field.attributes f)) ->
              Builder.getSchema builder' !! i
              = Some (BModel
                        (Model.mk (Model.name m)
                           (ppre
                            ++ PField
                                 (Field.mk "id" (Field.fieldType f)
                                    (Field.optional f)
                                    (Some (default [] (Field.attributes f)
                                           ++ [Attribute.mk KindField "map"
                                                 (Some [AttributeArgument.mk
                                                          (Scalar (Field.name f))])])))
                            :: ppost))))
             /\ (Field.name f = "id" ->
                 Builder.getSchema builder' !! i = Some (BModel m)))
         /\ (Forall (fun p => isIdField p = false) (Model.properties m) ->
             Builder.getSchema builder' !! i = Some (BModel m)).
Proof.
  intros Hnd Hfields.
  destruct (handleIdField_schema s sub par Hnd) as (sub' & par' & Hrun).
  { intros m Hm. by apply (proj1 (Forall_forall _ _) Hfields). }
  eexists. split; [exact Hrun|].
  intros i m Hi. cbn [Builder.getSchema Builder.schema].
  rewrite (lookup_map_onModel _ _ _ _ Hi). destruct m as [n props]. split.
  - intros ppre f ppost Hprops Hppre Hf. cbn [Model.properties] in Hprops.
    subst props. rewrite normalizedIdModel_first by done.
    unfold canonicalIdField. split.
    + intros Hname Hnomap. apply String.eqb_neq in Hname. rewrite Hname.
      cbn [Model.name].
      pose proof (renamedIdField_appends f Hnomap) as Happ.
      unfold renamedIdField in Happ |- *. cbn [Field.attributes] in Happ.
      by rewrite Happ.
    + intros Hname. apply String.eqb_eq in Hname. by rewrite Hname.
  - intros Hnone. unfold normalizedIdModel. cbn [Model.properties] in *.
    by rewrite (find_none_findIndex _ _ (find_none_Forall _ _ Hnone)).
Qed.

Lemma handleIdField_wellformed_witness :
  exists builder',
    handleIdField
      (Builder.mk [BModel usersModel; BModel userModel] None None)
    = Returns builder'
    /\ forall i m,
         [BModel usersModel; BModel userModel] !! i = Some (BModel m) ->
         (forall ppre f ppost,
             Model.properties m = ppre ++ PField f :: ppost ->
             Forall (fun p => isIdField p = false) ppre ->
             isIdField (PField f) = true ->
             (Field.name f <> "id" ->
              Forall (fun a => Attribute.name a <> "map")
                (default [] (Field.attributes f)) ->
              Builder.getSchema builder' !! i
              = Some (BModel
                        (Model.mk (Model.name m)
                           (ppre
                            ++ PField
                                 (Field.mk "id" (Field.fieldType f)
                                    (Field.optional f)
                                    (Some (default [] (Field.attributes f)
                                           ++ [Attribute.mk KindField "map"
                                                 (Some [AttributeArgument.mk
                                                          (Scalar (Field.name f))])])))
                            :: ppost))))
             /\ (Field.name f = "id" ->
                 Builder.getSchema builder' !! i = Some (BModel m)))
         /\ (Forall (fun p => isIdField p = false) (Model.properties m) ->
             Builder.getSchema builder' !! i = Some (BModel m)).
Proof.
  apply (handleIdField_wellformed
           [BModel usersModel; BModel userModel] None None).
  - decide_by_computation.
  - decide_by_computation.
Defined.

Example handleIdField_users :
  (b ← handleIdField (Builder.create [BModel usersModel]);
   Returns (Builder.getSchema b))
  = Returns
      [BModel
         (Model.mk "Users"
            [ PField (Field.mk "id" (Some "Int") false
                        (Some [idAttribute; autoincrementAttribute;
                               Attribute.mk KindField "map"
                                 (Some [AttributeArgument.mk (Scalar "userId")])]));
              PField (Field.mk "email" (Some "String") true
                        (Some [uniqueAttribute])) ])].
Proof. reflexivity. Qed.

(** X13: the pipeline is idempotent on a schema whose model names are
    pairwise distinct before and after the renaming of the models, whose field names
    are pairwise distinct inside each model, and whose models get from
    [handleModelName], when they are renamed, a name that is neither plural
    nor has an underscore. *)
Theorem normalize_idempotent_wellformed `{SchemaUtils} (s : Schema) :
  NoDup (modelNames s) ->
  NoDup (modelNames (map (onModel renamedModel) s)) ->
  Forall (fun m => NoDup (fieldNames m)) (models s) ->
  Forall (fun m => isInvalidModelName (Model.name (renamedModel m)) = false)
    (models s) ->
  exists s', normalize s = Returns s' /\ normalize s' = Returns s'.
Proof.
  intros Hnd Hnd' Hfields Hvalid.
  unfold normalize, prepareSchema, operations, Builder.create.
  cbn [forEach].
  destruct (handleModelNamesRenaming_schema s None None Hnd) as [sub1 Hone].
  rewrite Hone. cbn [mbind Outcome_bind].
  destruct (handleIdField_schema (map (onModel renamedModel) s) sub1 None Hnd')
    as (sub2 & par2 & Htwo).
  { intros m' Hm'. rewrite models_map_onModel in Hm'.
    apply list_elem_of_In, in_map_iff in Hm' as (m & <- & Hm).
    apply list_elem_of_In in Hm.
    apply (proj1 (Forall_forall _ _) Hfields) in Hm.
    unfold renamedModel. destruct (isInvalidModelName (Model.name m)); [|done].
    unfold fieldNames. cbn [Model.properties].
    by rewrite propertyFieldNames_mapBlockAttribute. }
  rewrite Htwo. cbn [mbind Outcome_bind Builder.getSchema Builder.schema].
  eexists. split; [reflexivity|].
  rewrite handleModelNamesRenaming_settled; cbn [Builder.schema].
  - cbn [mbind Outcome_bind].
    rewrite handleIdField_settled; cbn [Builder.schema]; [reflexivity|].
    intros m' Hm'. rewrite models_map_onModel in Hm'.
    apply list_elem_of_In, in_map_iff in Hm' as (m & <- & _).
    apply idSettled_normalized.
  - intros m' Hm'. rewrite !models_map_onModel in Hm'.
    apply list_elem_of_In, in_map_iff in Hm' as (m1 & <- & Hm1).
    apply in_map_iff in Hm1 as (m & <- & Hm).
    rewrite normalizedIdModel_name.
    apply list_elem_of_In in Hm.
    by apply (proj1 (Forall_forall _ _) Hvalid).
Qed.

Lemma normalize_idempotent_wellformed_witness :
  exists s',
    @normalize exampleUtils usersSchema = Returns s'
    /\ @normalize exampleUtils s' = Returns s'.
Proof.
  apply (@normalize_idempotent_wellformed exampleUtils usersSchema);
    decide_by_computation.
Defined.

(** C7: [Users] and [User] are two models of one schema; after the renaming
    both are called [User], the id field normaliser then looks the second one
    up for both, and every further run adds one more field to it: the
    pipeline applied to its own result gives another schema. *)
Theorem normalize_not_idempotent :
  exists s1 s2,
    @normalize exampleUtils [BModel usersModel; BModel userModel] = Returns s1
    /\ @normalize exampleUtils s1 = Returns s2
    /\ s1 <> s2.
Proof.
  eexists _, _. split; [vm_compute; reflexivity|].
  split; [vm_compute; reflexivity|]. discriminate.
Qed.

(** * Further properties *)

(** ** The normalisers never throw *)

Lemma findLast_none_all {A : Type} (p : A -> bool) (xs : list A) :
  findLast p xs = None -> Forall (fun x => p x = false) xs.
Proof.
  induction xs as [|x xs IH]; simpl; [constructor|].
  destruct (findLast p xs); [discriminate|].
  destruct (p x) eqn:Hx; [discriminate|]. intros _. constructor; auto.
Qed.

Lemma findLast_exists {A : Type} (p : A -> bool) (xs : list A) (i : nat)
    (x : A) :
  xs !! i = Some x -> p x = true ->
  exists j y, findLast p xs = Some j /\ xs !! j = Some y /\ p y = true.
Proof.
  intros Hi Hx. destruct (findLast p xs) as [j|] eqn:Hlast.
  - destruct (findLast_some _ _ _ Hlast) as (y & Hj & Hy). by exists j, y.
  - apply findLast_none_all in Hlast.
    rewrite Forall_lookup in Hlast. specialize (Hlast i x Hi). congruence.
Qed.

Lemma alter_agree {A : Type} (f g : A -> A) (i : nat) (xs : list A) (x : A) :
  xs !! i = Some x -> f x = g x -> alter f i xs = alter g i xs.
Proof.
  revert i. induction xs as [|y xs IH]; intros [|i] Hi Hfg; simpl in *;
    try discriminate.
  - injection Hi as ->. by rewrite Hfg.
  - f_equal. by apply IH.
Qed.

Lemma Edited_trans (s1 s2 s3 : Schema) :
  Edited s1 s2 -> Edited s2 s3 -> Edited s1 s3.
Proof.
  intros H12 H23. induction H23 as [|s2 s3 g j _ IH Hg]; [exact H12|].
  apply Edited_step; [by apply IH|exact Hg].
Qed.

Lemma Edited_one (s : Schema) (g : Model.t -> Model.t) (j : nat) :
  ModelEdit g -> Edited s (alter (onModel g) j s).
Proof. intros Hg. apply Edited_step; [apply Edited_refl|exact Hg]. Qed.

Lemma model_existing (n : string) (b : Builder.t) (i : nat) (m : Model.t) :
  Builder.schema b !! i = Some (BModel m) -> Model.name m = n ->
  exists j mj,
    Builder.model n b
    = Builder.mk (Builder.schema b) (Some (Builder.RModel j)) (Builder.parent b)
    /\ Builder.schema b !! j = Some (BModel mj)
    /\ Model.name mj = n.
Proof.
  intros Hi Hn.
  destruct (findLast_exists (isModelNamed n) _ i _ Hi) as (j & y & Hlast & Hj & Hy).
  { simpl. by apply String.eqb_eq. }
  destruct y as [mj|t n']; [|discriminate].
  exists j, mj. unfold Builder.model. rewrite Hlast.
  repeat split; [exact Hj|]. by apply String.eqb_eq.
Qed.

Lemma lookup_alter_onModel (g : Model.t -> Model.t) (s : Schema) (j : nat)
    (m : Model.t) :
  s !! j = Some (BModel m) ->
  alter (onModel g) j s !! j = Some (BModel (g m)).
Proof.
  intros Hj. rewrite list_lookup_alter, Hj. by rewrite decide_True.
Qed.

Section Totality.
Context `{SchemaUtils}.

Lemma renameModelAt_edits (i : nat) (b : Builder.t) :
  exists b',
    renameModelAt i b = Returns b'
    /\ Edited (Builder.schema b) (Builder.schema b').
Proof.
  unfold renameModelAt.
  destruct (Builder.schema b !! i) as [[m|t n]|] eqn:Hi;
    try (eexists; split; [reflexivity|apply Edited_refl]).
  destruct (isInvalidModelName (Model.name m));
    [|eexists; split; [reflexivity|apply Edited_refl]].
  destruct (model_existing (Model.name m) b i m Hi eq_refl)
    as (j & mj & -> & Hj & Hnj).
  unfold Builder.blockAttribute.
  cbn [Builder.currentModel Builder.subject Builder.schema Builder.parent
       mbind Outcome_bind].
  set (g1 := pushProperty _).
  edestruct (model_existing (Model.name m)
               (Builder.mk (alter (onModel g1) j (Builder.schema b))
                  (Some (Builder.RModel j)) (Builder.parent b)) j (g1 mj))
    as (j2 & m2 & -> & Hj2 & Hn2).
  { cbn [Builder.schema]. by apply lookup_alter_onModel. }
  { exact Hnj. }
  cbn [Builder.schema Builder.parent] in *.
  unfold Builder.then_, Builder.subjectNode.
  cbn [Builder.subject Builder.schema]. rewrite Hj2.
  eexists. split; [reflexivity|].
  unfold Builder.putSubject.
  cbn [Builder.subject Builder.schema setNodeName nodeName].
  rewrite (alter_agree
             (onModel (fun _ => Model.set_name m2
                                  (handleModelName (Model.name m2))))
             (onModel (fun m' => Model.set_name m'
                                   (handleModelName (Model.name m2))))
             j2 _ _ Hj2 eq_refl).
  apply Edited_step; [|apply edit_model_name].
  apply Edited_one. apply edit_push_attribute.
Qed.

End Totality.

Lemma field_total (n : string) (b : Builder.t) (j : nat) (mj : Model.t) :
  Builder.subject b = Some (Builder.RModel j) ->
  Builder.schema b !! j = Some (BModel mj) ->
  exists b1 k fk m1,
    Builder.field n b = Returns b1
    /\ Builder.subject b1 = Some (Builder.RField j k)
    /\ Builder.parent b1 = Some (Builder.RModel j)
    /\ Builder.schema b1 !! j = Some (BModel m1)
    /\ Model.name m1 = Model.name mj
    /\ Model.properties m1 !! k = Some (PField fk)
    /\ Edited (Builder.schema b) (Builder.schema b1).
Proof.
  intros Hsub Hj. unfold Builder.field, Builder.currentModel.
  rewrite Hsub, Hj.
  destruct (findLast (isFieldNamed n) (Model.properties mj)) as [k|] eqn:Hlast.
  - destruct (findLast_some _ _ _ Hlast) as (y & Hk & Hy).
    destruct y as [fk| | |]; try discriminate.
    exists (Builder.mk (Builder.schema b) (Some (Builder.RField j k))
              (Some (Builder.RModel j))), k, fk, mj.
    repeat split; try done. apply Edited_refl.
  - eexists _, (List.length (Model.properties mj)),
      (Field.mk n (Some "String") false None),
      (pushProperty (PField (Field.mk n (Some "String") false None)) mj).
    split; [reflexivity|]. cbn [Builder.subject Builder.parent Builder.schema].
    split; [reflexivity|]. split; [reflexivity|].
    split; [by apply lookup_alter_onModel|]. split; [reflexivity|]. split.
    + unfold pushProperty. cbn [Model.properties Model.set_properties].
      by apply list_lookup_middle.
    + apply Edited_one, edit_push_field.
Qed.

Lemma renameIdFieldAt_edits (i : nat) (b : Builder.t) :
  exists b',
    renameIdFieldAt i b = Returns b'
    /\ Edited (Builder.schema b) (Builder.schema b').
Proof.
  unfold renameIdFieldAt.
  destruct (Builder.schema b !! i) as [[m|t n]|] eqn:Hi;
    try (eexists; split; [reflexivity|apply Edited_refl]).
  destruct (findIdField m) as [idField|];
    [|eexists; split; [reflexivity|apply Edited_refl]].
  destruct (negb (String.eqb (Field.name idField) "id"));
    [|eexists; split; [reflexivity|apply Edited_refl]].
  destruct (model_existing (Model.name m) b i m Hi eq_refl)
    as (j & mj & -> & Hj & Hnj).
  edestruct (field_total (Field.name idField)
               (Builder.mk (Builder.schema b) (Some (Builder.RModel j))
                  (Builder.parent b)) j mj eq_refl Hj)
    as (b1 & k & fk & m1 & -> & Hsub1 & Hpar1 & Hj1 & Hn1 & Hk1 & He1).
  cbn [mbind Outcome_bind Builder.schema] in *.
  unfold Builder.attribute. rewrite Hsub1, Hpar1.
  cbn [mbind Outcome_bind].
  set (g2 := fun m0 : Model.t => Model.set_properties m0 _).
  edestruct (model_existing (Model.name m)
               (Builder.mk (alter (onModel g2) j (Builder.schema b1))
                  (Some (Builder.RField j k)) (Some (Builder.RModel j)))
               j (g2 m1))
    as (j3 & m3 & -> & Hj3 & Hn3).
  { cbn [Builder.schema]. by apply lookup_alter_onModel. }
  { subst g2. cbn [Model.name Model.set_properties]. congruence. }
  cbn [Builder.schema Builder.parent] in *.
  edestruct (field_total (Field.name idField)
               (Builder.mk (alter (onModel g2) j (Builder.schema b1))
                  (Some (Builder.RModel j3)) (Some (Builder.RModel j)))
               j3 m3 eq_refl Hj3)
    as (b4 & k4 & f4 & m4 & -> & Hsub4 & Hpar4 & Hj4 & Hn4 & Hk4 & He4).
  cbn [mbind Outcome_bind Builder.schema] in *.
  unfold Builder.then_, Builder.subjectNode. rewrite Hsub4, Hj4, Hk4.
  eexists. split; [reflexivity|].
  unfold Builder.putSubject. rewrite Hsub4.
  cbn [Builder.schema setNodeName].
  rewrite (alter_agree
             (onModel (fun m0 =>
                Model.set_properties m0
                  (alter (onField (fun _ => Field.set_name f4 "id")) k4
                     (Model.properties m0))))
             (onModel (fun m0 =>
                Model.set_properties m0
                  (alter (onField (fun f => Field.set_name f "id")) k4
                     (Model.properties m0))))
             j3 _ _ Hj4).
  - apply Edited_step; [|apply edit_field, edit_field_name].
    eapply Edited_trans; [|exact He4]. cbn [Builder.schema].
    apply Edited_step; [exact He1|]. subst g2.
    apply (edit_field _ k (edit_attach_map _)).
  - cbn [onModel]. f_equal. f_equal.
    by apply (alter_agree _ _ _ _ _ Hk4).
Qed.

Lemma forEach_edits {A : Type} (f : A -> Builder.t -> Outcome Builder.t)
    (xs : list A) (b : Builder.t) :
  (forall x b0, exists b1,
      f x b0 = Returns b1 /\ Edited (Builder.schema b0) (Builder.schema b1)) ->
  exists b',
    forEach f xs b = Returns b'
    /\ Edited (Builder.schema b) (Builder.schema b').
Proof.
  intros Hf. revert b. induction xs as [|x xs IH]; intros b; simpl.
  - eexists. split; [reflexivity|apply Edited_refl].
  - destruct (Hf x b) as (b1 & -> & He1). cbn [mbind Outcome_bind].
    destruct (IH b1) as (b2 & -> & He2).
    eexists. split; [reflexivity|]. by eapply Edited_trans.
Qed.

Lemma prepareSchema_edits `{SchemaUtils} (s : Schema) :
  exists s', prepareSchema operations s = Returns s' /\ Edited s s'.
Proof.
  unfold prepareSchema, operations. cbn [forEach].
  destruct (forEach_edits renameModelAt
              (modelIndices (Builder.getSchema (Builder.create s)))
              (Builder.create s) renameModelAt_edits) as (b1 & Hb1 & He1).
  unfold handleModelNamesRenaming at 1. rewrite Hb1. cbn [mbind Outcome_bind].
  destruct (forEach_edits renameIdFieldAt
              (modelIndices (Builder.getSchema b1)) b1 renameIdFieldAt_edits)
    as (b2 & Hb2 & He2).
  unfold handleIdField. rewrite Hb2. cbn [mbind Outcome_bind].
  eexists. split; [reflexivity|].
  eapply Edited_trans; [exact He1|exact He2].
Qed.

(** ** What the updates keep *)

Lemma map_alter_same {A B : Type} (phi : A -> B) (g : A -> A) (i : nat)
    (xs : list A) :
  (forall x, phi (g x) = phi x) -> map phi (alter g i xs) = map phi xs.
Proof.
  intros Hphi. revert i. induction xs as [|x xs IH]; intros [|i]; simpl;
    try reflexivity.
  - by rewrite Hphi.
  - f_equal. apply IH.
Qed.

Lemma forallb_alter_same {A : Type} (q : A -> bool) (g : A -> A) (i : nat)
    (xs : list A) :
  (forall x, q (g x) = q x) -> forallb q (alter g i xs) = forallb q xs.
Proof.
  intros Hq. revert i. induction xs as [|x xs IH]; intros [|i]; simpl;
    try reflexivity.
  - by rewrite Hq.
  - f_equal. apply IH.
Qed.

Lemma find_alter_skip {A : Type} (p : A -> bool) (g : A -> A) (i : nat)
    (xs : list A) (x : A) :
  xs !! i = Some x -> p x = false -> p (g x) = false ->
  List.find p (alter g i xs) = List.find p xs.
Proof.
  revert i. induction xs as [|y xs IH]; intros [|i] Hi Hx Hgx; simpl in *;
    try discriminate.
  - injection Hi as ->. by rewrite Hx, Hgx.
  - destruct (p y); [reflexivity|]. by apply IH.
Qed.

Lemma find_app_skip {A : Type} (p : A -> bool) (xs : list A) (y : A) :
  p y = false -> List.find p (xs ++ [y]) = List.find p xs.
Proof.
  intros Hy. induction xs as [|x xs IH]; simpl; [by rewrite Hy|].
  by destruct (p x).
Qed.

Lemma isAttributeNamed_other (n n' : string) (a : Attribute.t) :
  n <> n' -> isAttributeNamed n a = true -> isAttributeNamed n' a = false.
Proof.
  unfold isAttributeNamed. intros Hne Hn. apply String.eqb_eq in Hn.
  apply String.eqb_neq. congruence.
Qed.

(** Attaching an attribute of one name leaves the first attribute of any
    other name where and as it is. *)
Lemma find_attachAttribute (n name : string) (args : list AttributeArgument.t)
    (attrs : list Attribute.t) :
  name <> n ->
  List.find (isAttributeNamed n) (attachAttribute name args attrs)
  = List.find (isAttributeNamed n) attrs.
Proof.
  intros Hne. unfold attachAttribute.
  destruct (findLast (isAttributeNamed name) attrs) as [i|] eqn:Hlast.
  - destruct (findLast_some _ _ _ Hlast) as (a & Hi & Ha).
    apply (find_alter_skip _ _ _ _ a Hi).
    + by apply (isAttributeNamed_other name).
    + by apply (isAttributeNamed_other name).
  - apply find_app_skip. apply String.eqb_neq. exact Hne.
Qed.

Lemma fieldResolvable_edit (h : Field.t -> Field.t) (f : Field.t) :
  FieldEdit h -> fieldResolvable (h f) = fieldResolvable f.
Proof.
  intros [args|n]; [|reflexivity].
  unfold fieldResolvable. cbn [Field.attributes Field.set_attributes].
  change (default [] (Some ?x)) with x.
  by rewrite find_attachAttribute.
Qed.

Lemma modelResolvable_edit (g : Model.t -> Model.t) (m : Model.t) :
  ModelEdit g -> modelResolvable (g m) = modelResolvable m.
Proof.
  intros [a|n|n|h k Hh]; unfold modelResolvable, pushProperty;
    cbn [Model.properties Model.set_properties Model.set_name].
  - rewrite forallb_app. simpl. by rewrite andb_true_r.
  - rewrite forallb_app. simpl. by rewrite andb_true_r.
  - reflexivity.
  - apply forallb_alter_same. intros [f| | |]; try reflexivity.
    simpl. by apply fieldResolvable_edit.
Qed.

Lemma Edited_resolvable (s s' : Schema) :
  Edited s s' -> schemaResolvable s' = schemaResolvable s.
Proof.
  induction 1 as [|s s1 g j _ IH Hg]; [reflexivity|].
  rewrite <- IH. unfold schemaResolvable. apply forallb_alter_same.
  intros [m|t n]; [|reflexivity]. simpl. by apply modelResolvable_edit.
Qed.

Lemma Edited_skeleton (s s' : Schema) :
  Edited s s' -> skeleton s' = skeleton s.
Proof.
  induction 1 as [|s s1 g j _ IH Hg]; [reflexivity|].
  rewrite <- IH. unfold skeleton. apply map_alter_same.
  by intros [m|t n].
Qed.

Lemma skeleton_models_length (s s' : Schema) :
  skeleton s' = skeleton s ->
  List.length (models s') = List.length (models s).
Proof.
  revert s'. induction s as [|b s IH]; intros [|b' s'] Hsk;
    try discriminate; [reflexivity|].
  injection Hsk as Hb Hrest. specialize (IH s' Hrest).
  destruct b, b'; try discriminate; unfold models in *; simpl;
    [by f_equal|exact IH].
Qed.

(** X1: the normalisation pipeline returns on every schema, and the schema
    it returns has the declarations that are not models where and as they
    were, and a model wherever there was one. *)
Theorem prepareSchema_total `{SchemaUtils} (s : Schema) :
  exists s',
    prepareSchema operations s = Returns s'
    /\ skeleton s' = skeleton s
    /\ List.length s' = List.length s
    /\ List.length (models s') = List.length (models s).
Proof.
  destruct (prepareSchema_edits s) as (s' & Hrun & Hed).
  exists s'. split; [exact Hrun|].
  pose proof (Edited_skeleton _ _ Hed) as Hsk.
  split; [exact Hsk|]. split; [|by apply skeleton_models_length].
  apply (f_equal (@List.length _)) in Hsk. unfold skeleton in Hsk.
  by rewrite !length_map in Hsk.
Qed.

(** ** When the import throws *)

Lemma isReturns_traverse {A B : Type} (f : A -> Outcome B) (xs : list A) :
  isReturns (traverse f xs) = forallb (fun x => isReturns (f x)) xs.
Proof.
  induction xs as [|x xs IH]; simpl; [reflexivity|].
  destruct (f x); simpl; [|reflexivity].
  rewrite <- IH. by destruct (traverse f xs).
Qed.

Lemma forallb_pointwise {A : Type} (p q : A -> bool) (xs : list A) :
  (forall x, p x = q x) -> forallb p xs = forallb q xs.
Proof.
  intros Hpq. induction xs as [|x xs IH]; simpl; [reflexivity|].
  by rewrite Hpq, IH.
Qed.

Lemma forallb_omap_fields (q : Field.t -> bool) (ps : list Property) :
  forallb q (omap (fun p => match p with PField f => Some f | _ => None end) ps)
  = forallb (fun p => match p with PField f => q f | _ => true end) ps.
Proof.
  induction ps as [|[f| | |] ps IH]; simpl; try exact IH; [reflexivity|].
  f_equal. exact IH.
Qed.

Lemma forallb_omap_models (q : Model.t -> bool) (s : Schema) :
  forallb q (models s)
  = forallb (fun b => match b with BModel m => q m | BOther _ _ => true end) s.
Proof.
  induction s as [|[m|t n] s IH]; simpl; try exact IH; [reflexivity|].
  f_equal. exact IH.
Qed.

Section EntityImport.
Context `{SchemaUtils}.

Lemma isReturns_prepareFiledProperties (f : Field.t) :
  isReturns (prepareFiledProperties f) = fieldResolvable f.
Proof.
  unfold prepareFiledProperties, fieldResolvable, hasFirstArgument.
  destruct (List.find _ _) as [a|]; [|reflexivity].
  destruct (Attribute.args a) as [[|arg0 rest]|]; try reflexivity.
  by destruct (AttributeArgument.value arg0).
Qed.

Lemma forallb_false_elem {A : Type} (p : A -> bool) (xs : list A) :
  forallb p xs = false -> exists x, x ∈ xs /\ p x = false.
Proof.
  induction xs as [|x xs IH]; simpl; [discriminate|].
  destruct (p x) eqn:Hx; simpl.
  - intros Hrest. destruct (IH Hrest) as (y & Hy & Hpy).
    exists y. split; [by apply list_elem_of_further|exact Hpy].
  - intros _. exists x. split; [apply list_elem_of_here|exact Hx].
Qed.

Lemma traverse_throws {A B : Type} (f : A -> Outcome B) (xs : list A)
    (x : A) :
  x ∈ xs -> f x = Throws -> traverse f xs = Throws.
Proof.
  intros Hin Hx. induction Hin as [x xs|x y xs _ IH]; simpl.
  - by rewrite Hx.
  - rewrite (IH Hx). by destruct (f y).
Qed.

Lemma prepareEntityField_throws (f : Field.t) :
  prepareFiledProperties f = Throws -> prepareEntityField f = Throws.
Proof. intros Hf. unfold prepareEntityField. by rewrite Hf. Qed.

(** X2: the pipeline keeps what decides whether the field projector's
    property lookup returns: on every field of every model of the normalised
    schema the lookup returns exactly when, in the schema given, every
    field's first [default] attribute (if there is one) has a first argument
    that is not null; and when the schema given has a field that fails this,
    the field projector throws on a model of the normalised schema. *)
Theorem prepareFiledProperties_after_prepareSchema (schema : Schema) :
  exists preparedSchema,
    prepareSchema operations schema = Returns preparedSchema
    /\ forallb
         (fun m => forallb (fun f => isReturns (prepareFiledProperties f))
                     (modelFields m))
         (models preparedSchema)
       = schemaResolvable schema
    /\ (schemaResolvable schema = false ->
        exists m, m ∈ models preparedSchema /\ prepareEntityFields m = Throws).
Proof.
  destruct (prepareSchema_edits schema) as (s' & Hrun & Hed).
  exists s'. split; [exact Hrun|].
  assert (forallb
            (fun m => forallb (fun f => isReturns (prepareFiledProperties f))
                        (modelFields m))
            (models s')
          = schemaResolvable schema) as Heq.
  { rewrite <- (Edited_resolvable _ _ Hed). unfold schemaResolvable.
    rewrite forallb_omap_models. apply forallb_pointwise.
    intros [m|t n]; [|reflexivity].
    unfold modelFields, modelResolvable. rewrite forallb_omap_fields.
    apply forallb_pointwise. intros [f| | |]; try reflexivity.
    apply isReturns_prepareFiledProperties. }
  split; [exact Heq|].
  intros Hno. rewrite Hno in Heq.
  destruct (forallb_false_elem _ _ Heq) as (m & Hm & Hfields).
  destruct (forallb_false_elem _ _ Hfields) as (f & Hf & Hthrows).
  exists m. split; [exact Hm|].
  apply (traverse_throws _ _ f Hf), prepareEntityField_throws.
  by destruct (prepareFiledProperties f).
Qed.

End EntityImport.

Lemma prepareFiledProperties_after_prepareSchema_witness :
  exists preparedSchema,
    prepareSchema (operations (H := exampleUtils)) accountSchema
    = Returns preparedSchema
    /\ forallb
         (fun m => forallb
                     (fun f => isReturns
                                 (@prepareFiledProperties exampleUtils f))
                     (modelFields m))
         (models preparedSchema)
       = schemaResolvable accountSchema
    /\ exists m, m ∈ models preparedSchema
                 /\ @prepareEntityFields exampleUtils m = Throws.
Proof.
  destruct (@prepareFiledProperties_after_prepareSchema exampleUtils
              accountSchema) as (s' & Hrun & Heq & Hthrows).
  exists s'. split; [exact Hrun|]. split; [exact Heq|].
  apply Hthrows. reflexivity.
Defined.

Lemma Forall2_same_length {A B : Type} (R : A -> B -> Prop) (xs : list A)
    (ys : list B) :
  Forall2 R xs ys -> List.length ys = List.length xs.
Proof. induction 1; simpl; congruence. Qed.

(** X3: the normalised schema, whose models the import maps to entities, has
    no model exactly when the structural validation of the schema given
    reports an error. *)
Theorem prepareSchema_no_models `{SchemaUtils} (schema : Schema) :
  exists preparedSchema,
    prepareSchema operations schema = Returns preparedSchema
    /\ (models preparedSchema = []
        <-> validateSchemaProcessing schema <> None).
Proof.
  destruct (prepareSchema_edits schema) as (s' & Hrun & Hed).
  exists s'. split; [exact Hrun|].
  pose proof (skeleton_models_length _ _ (Edited_skeleton _ _ Hed)) as Hlen.
  unfold validateSchemaProcessing. rewrite <- Hlen.
  destruct (models s'); simpl; split; congruence.
Qed.

(** ** The normalisers followed by the projector *)

Lemma append_assoc (a b c : string) : (a +:+ b) +:+ c = a +:+ (b +:+ c).
Proof.
  induction a as [|ch a IH]; [reflexivity|].
  change (String ch ((a +:+ b) +:+ c) = String ch (a +:+ (b +:+ c))).
  by rewrite IH.
Qed.

Lemma prepareAttribute_mapBlockAttribute (n original : string) :
  traverse prepareAttribute
    (modelAttributes (Model.mk n [mapBlockAttribute original]))
  = Returns ["@@map(" +:+ dquote +:+ original +:+ dquote +:+ ")"].
Proof.
  change (Returns ["@@map(" +:+ ((dquote +:+ (original +:+ dquote)) +:+ ")")]
          = Returns ["@@map(" +:+ dquote +:+ original +:+ dquote +:+ ")"]).
  by rewrite !append_assoc.
Qed.

Lemma traverse_app {A B : Type} (f : A -> Outcome B) (xs ys : list A) :
  traverse f (xs ++ ys)
  = (a ← traverse f xs; b ← traverse f ys; Returns (a ++ b)).
Proof.
  induction xs as [|x xs IH]; simpl.
  - by destruct (traverse f ys).
  - destruct (f x); simpl; [|reflexivity]. rewrite IH.
    destruct (traverse f xs); simpl; [|reflexivity].
    by destruct (traverse f ys).
Qed.

Lemma modelFields_app (n : string) (ps qs : list Property) :
  modelFields (Model.mk n (ps ++ qs))
  = modelFields (Model.mk n ps) ++ modelFields (Model.mk n qs).
Proof. unfold modelFields. cbn [Model.properties]. apply omap_app. Qed.

Lemma modelAttributes_app (n : string) (ps qs : list Property) :
  modelAttributes (Model.mk n (ps ++ qs))
  = modelAttributes (Model.mk n ps) ++ modelAttributes (Model.mk n qs).
Proof. unfold modelAttributes. cbn [Model.properties]. apply omap_app. Qed.

Section Projection.
Context `{SchemaUtils}.

Lemma prepareEntity_renamedModel (m : Model.t) :
  isInvalidModelName (Model.name m) = true ->
  prepareEntity (renamedModel m)
  = renamedEntity (Model.name m) <$> prepareEntity m
  /\ prepareEntityFields (renamedModel m) = prepareEntityFields m.
Proof.
  intros Hinv. unfold renamedModel. rewrite Hinv. destruct m as [n ps].
  cbn [Model.name Model.properties]. split.
  - unfold prepareEntity, prepareAttributes. cbn [Model.name].
    rewrite modelAttributes_app, traverse_app.
    rewrite prepareAttribute_mapBlockAttribute.
    change (modelAttributes (Model.mk (handleModelName n) ps))
      with (modelAttributes (Model.mk n ps)).
    by destruct (traverse prepareAttribute (modelAttributes (Model.mk n ps))).
  - unfold prepareEntityFields. rewrite modelFields_app.
    unfold modelFields at 2. simpl. by rewrite app_nil_r.
Qed.

(** X4: in a schema whose model names are pairwise distinct, the model name
    normaliser changes what the projector gives for a model only when the
    name is plural or has an underscore, and then only the entity: its names
    follow the new name and [@@map] of the original name, in double quotes,
    comes after the custom attributes it had; the projected fields are the
    same. *)
Theorem handleModelNamesRenaming_projection (s : Schema)
    (sub par : option Builder.Ref) :
  NoDup (modelNames s) ->
  exists builder',
    handleModelNamesRenaming (Builder.mk s sub par) = Returns builder'
    /\ forall i m,
         s !! i = Some (BModel m) ->
         exists m',
           Builder.getSchema builder' !! i = Some (BModel m')
           /\ prepareEntityFields m' = prepareEntityFields m
           /\ prepareEntity m'
              = (if isInvalidModelName (Model.name m)
                 then renamedEntity (Model.name m) <$> prepareEntity m
                 else prepareEntity m).
Proof.
  intros Hnd.
  destruct (handleModelNamesRenaming_schema s sub par Hnd) as [sub' Hrun].
  eexists. split; [exact Hrun|]. intros i m Hi.
  exists (renamedModel m). cbn [Builder.getSchema Builder.schema].
  split; [by apply lookup_map_onModel|].
  destruct (isInvalidModelName (Model.name m)) eqn:Hinv.
  - destruct (prepareEntity_renamedModel m Hinv) as [He Hf]. by split.
  - by rewrite (renamedModel_name_valid m Hinv).
Qed.

End Projection.

Lemma handleModelNamesRenaming_projection_witness :
  exists builder',
    @handleModelNamesRenaming exampleUtils
      (Builder.mk [BModel usersModel; BModel userModel] None None)
    = Returns builder'
    /\ forall i m,
         [BModel usersModel; BModel userModel] !! i = Some (BModel m) ->
         exists m',
           Builder.getSchema builder' !! i = Some (BModel m')
           /\ @prepareEntityFields exampleUtils m'
              = @prepareEntityFields exampleUtils m
           /\ @prepareEntity exampleUtils m'
              = (if @isInvalidModelName exampleUtils (Model.name m)
                 then @renamedEntity exampleUtils (Model.name m)
                        <$> @prepareEntity exampleUtils m
                 else @prepareEntity exampleUtils m).
Proof.
  apply (@handleModelNamesRenaming_projection exampleUtils
           [BModel usersModel; BModel userModel] None None).
  decide_by_computation.
Defined.

Lemma existsb_app_skip {A : Type} (p : A -> bool) (xs : list A) (y : A) :
  p y = false -> existsb p (xs ++ [y]) = existsb p xs.
Proof.
  intros Hy. rewrite existsb_app. simpl. by rewrite Hy, !orb_false_r.
Qed.

Lemma traverse_length {A B : Type} (f : A -> Outcome B) (xs : list A)
    (ys : list B) :
  traverse f xs = Returns ys -> List.length ys = List.length xs.
Proof. intros Hret. by apply traverse_Forall2, Forall2_same_length in Hret. Qed.

Section IdProjection.
Context `{SchemaUtils}.

Lemma prepareEntityField_renamedIdField (f : Field.t)
    (r : CreateEntityFieldInput.t IdTypeProperties) :
  isIdField (PField f) = true ->
  Forall (fun a => Attribute.name a <> "map") (default [] (Field.attributes f)) ->
  prepareEntityField f = Returns r ->
  prepareEntityField (renamedIdField f)
  = Returns (renamedIdRecord (Field.name f) r).
Proof.
  intros Hid Hnomap Hret.
  apply prepareEntityField_returns in Hret as (p & a & Hp & Ha & ->).
  unfold prepareEntityField, prepareFiledProperties, someAttributeNamed.
  rewrite (renamedIdField_appends f Hnomap).
  unfold prepareFiledProperties in Hp.
  destruct (Field.attributes f) as [attrs|] eqn:Hattrs;
    [|unfold isIdField in Hid; rewrite Hattrs in Hid; discriminate Hid].
  cbn [default from_option id] in *. change (default [] (Some ?x)) with x.
  rewrite find_app_skip by reflexivity. rewrite Hp. cbn [mbind Outcome_bind].
  unfold prepareAttributes in Ha |- *. rewrite traverse_app, Ha.
  cbn [mbind Outcome_bind].
  unfold renamedIdRecord, renamedIdField, filterOutAmplicationAttributes,
    someAttributeNamed.
  cbn [CreateEntityFieldInput.dataType CreateEntityFieldInput.required
       CreateEntityFieldInput.unique CreateEntityFieldInput.searchable
       CreateEntityFieldInput.description CreateEntityFieldInput.properties
       CreateEntityFieldInput.customAttributes Field.name Field.optional
       Field.attributes].
  rewrite Hattrs. cbn [fmap option_fmap option_map].
  rewrite existsb_app_skip by reflexivity.
  change (traverse prepareAttribute
            [Attribute.mk KindField "map"
               (Some [AttributeArgument.mk (Scalar (Field.name f))])])
    with (Returns ["@map(" +:+ Field.name f +:+ ")"]).
  cbn [mbind Outcome_bind mret Outcome_ret].
  rewrite List.filter_app. reflexivity.
Qed.

(** X5: in a schema whose model names are pairwise distinct and whose field
    names are pairwise distinct inside each model, when the id field
    normaliser renames the primary-key field of a model and that field had no
    [map] attribute, the projector gives the same entity as before and the
    same field records as before except the record of that field: its names
    are [id], and [@map] of the original name (without quotes) comes after
    the custom attributes it had, unless that string is reserved. *)
Theorem handleIdField_projection (s : Schema) (sub par : option Builder.Ref) :
  NoDup (modelNames s) ->
  Forall (fun m => NoDup (fieldNames m)) (models s) ->
  exists builder',
    handleIdField (Builder.mk s sub par) = Returns builder'
    /\ forall i m ppre f ppost records,
         s !! i = Some (BModel m) ->
         Model.properties m = ppre ++ PField f :: ppost ->
         Forall (fun p => isIdField p = false) ppre ->
         isIdField (PField f) = true ->
         Field.name f <> "id" ->
         Forall (fun a => Attribute.name a <> "map")
           (default [] (Field.attributes f)) ->
         prepareEntityFields m = Returns records ->
         exists m',
           Builder.getSchema builder' !! i = Some (BModel m')
           /\ prepareEntity m' = prepareEntity m
           /\ prepareEntityFields m'
              = Returns
                  (alter (renamedIdRecord (Field.name f))
                     (List.length (modelFields (Model.mk (Model.name m) ppre)))
                     records).
Proof.
  intros Hnd Hfields.
  destruct (handleIdField_schema s sub par Hnd) as (sub' & par' & Hrun).
  { intros m Hm. by apply (proj1 (Forall_forall _ _) Hfields). }
  eexists. split; [exact Hrun|].
  intros i [n props] ppre f ppost records Hi Hprops Hppre Hf Hname Hnomap Hret.
  cbn [Model.properties Model.name] in *. subst props.
  exists (Model.mk n (ppre ++ PField (renamedIdField f) :: ppost)).
  cbn [Builder.getSchema Builder.schema]. split; [|split].
  - rewrite (lookup_map_onModel _ _ _ _ Hi).
    rewrite normalizedIdModel_first by done. unfold canonicalIdField.
    apply String.eqb_neq in Hname. by rewrite Hname.
  - unfold prepareEntity. cbn [Model.name]. f_equal.
    rewrite !(modelAttributes_app n ppre). reflexivity.
  - unfold prepareEntityFields in *.
    rewrite (modelFields_app n ppre) in *.
    change (PField ?x :: ppost) with ([PField x] ++ ppost) in *.
    rewrite (modelFields_app n [PField f] ppost) in Hret.
    rewrite (modelFields_app n [PField (renamedIdField f)] ppost).
    rewrite !traverse_app in Hret. rewrite !traverse_app.
    destruct (traverse prepareEntityField (modelFields (Model.mk n ppre)))
      as [rpre|] eqn:Hpre; [|discriminate].
    cbn [mbind Outcome_bind] in *.
    change (modelFields (Model.mk n [PField f])) with [f] in Hret.
    change (modelFields (Model.mk n [PField (renamedIdField f)]))
      with [renamedIdField f].
    cbn [traverse] in *.
    destruct (prepareEntityField f) as [r|] eqn:Hr;
      cbn [mbind Outcome_bind] in Hret; [|discriminate Hret].
    rewrite (prepareEntityField_renamedIdField f r Hf Hnomap Hr).
    cbn [mbind Outcome_bind] in *.
    destruct (traverse prepareEntityField (modelFields (Model.mk n ppost)))
      as [rpost|]; cbn [mbind Outcome_bind] in *; [|discriminate Hret].
    injection Hret as <-.
    rewrite <- (traverse_length _ _ _ Hpre).
    simpl. by rewrite alter_middle.
Qed.

End IdProjection.

Lemma handleIdField_projection_witness :
  exists builder',
    handleIdField (Builder.mk [BModel usersModel; BModel userModel] None None)
    = Returns builder'
    /\ forall i m ppre f ppost records,
         [BModel usersModel; BModel userModel] !! i = Some (BModel m) ->
         Model.properties m = ppre ++ PField f :: ppost ->
         Forall (fun p => isIdField p = false) ppre ->
         isIdField (PField f) = true ->
         Field.name f <> "id" ->
         Forall (fun a => Attribute.name a <> "map")
           (default [] (Field.attributes f)) ->
         @prepareEntityFields exampleUtils m = Returns records ->
         exists m',
           Builder.getSchema builder' !! i = Some (BModel m')
           /\ @prepareEntity exampleUtils m' = @prepareEntity exampleUtils m
           /\ @prepareEntityFields exampleUtils m'
              = Returns
                  (alter (@renamedIdRecord exampleUtils (Field.name f))
                     (List.length (modelFields (Model.mk (Model.name m) ppre)))
                     records).
Proof.
  apply (@handleIdField_projection exampleUtils
           [BModel usersModel; BModel userModel] None None).
  - decide_by_computation.
  - decide_by_computation.
Defined.

(** ** The pipeline on a well-formed schema *)

Section Postcondition.
Context `{SchemaUtils}.

Lemma fieldNames_renamedModel (m : Model.t) :
  fieldNames (renamedModel m) = fieldNames m.
Proof.
  unfold renamedModel. destruct (isInvalidModelName (Model.name m)); [|done].
  unfold fieldNames. cbn [Model.properties].
  apply propertyFieldNames_mapBlockAttribute.
Qed.

Lemma normalize_schema (s : Schema) :
  NoDup (modelNames s) ->
  NoDup (modelNames (map (onModel renamedModel) s)) ->
  Forall (fun m => NoDup (fieldNames m)) (models s) ->
  normalize s
  = Returns (map (onModel normalizedIdModel) (map (onModel renamedModel) s)).
Proof.
  intros Hnd Hnd' Hfields.
  unfold normalize, prepareSchema, operations, Builder.create.
  cbn [forEach].
  destruct (handleModelNamesRenaming_schema s None None Hnd) as [sub1 ->].
  cbn [mbind Outcome_bind].
  destruct (handleIdField_schema (map (onModel renamedModel) s) sub1 None Hnd')
    as (sub2 & par2 & ->); [|reflexivity].
  intros m' Hm'. rewrite models_map_onModel in Hm'.
  apply list_elem_of_In, in_map_iff in Hm' as (m & <- & Hm).
  apply list_elem_of_In in Hm.
  rewrite fieldNames_renamedModel.
  by apply (proj1 (Forall_forall _ _) Hfields).
Qed.

(** X6: on a schema whose model names are pairwise distinct before and after
    the renaming and whose field names are pairwise distinct inside each
    model, the pipeline returns a schema in which the first field with [@id]
    of every model is called [id], and in which no model name is plural or
    has an underscore provided [handleModelName] never returns such a name. *)
Theorem normalize_postcondition (s : Schema) :
  NoDup (modelNames s) ->
  NoDup (modelNames (map (onModel renamedModel) s)) ->
  Forall (fun m => NoDup (fieldNames m)) (models s) ->
  exists s',
    normalize s = Returns s'
    /\ Forall (fun m =>
                 (forall f, findIdField m = Some f -> Field.name f = "id")
                 /\ (handleModelName_compliant ->
                     isInvalidModelName (Model.name m) = false))
         (models s').
Proof.
  intros Hnd Hnd' Hfields. eexists. split; [by apply normalize_schema|].
  rewrite !models_map_onModel. apply Forall_forall. intros m' Hm'.
  apply list_elem_of_In, in_map_iff in Hm' as (m1 & <- & Hm1).
  apply in_map_iff in Hm1 as (m & <- & _). split.
  - intros f Hf. pose proof (idSettled_normalized (renamedModel m)) as Hs.
    unfold idSettled in Hs. by rewrite Hf in Hs.
  - intros Hcompliant. rewrite normalizedIdModel_name. unfold renamedModel.
    destruct (isInvalidModelName (Model.name m)) eqn:Hinv; [|exact Hinv].
    apply Hcompliant.
Qed.

End Postcondition.

Lemma normalize_postcondition_witness :
  exists s',
    @normalize exampleUtils usersSchema = Returns s'
    /\ Forall (fun m =>
                 (forall f, findIdField m = Some f -> Field.name f = "id")
                 /\ (@handleModelName_compliant exampleUtils ->
                     @isInvalidModelName exampleUtils (Model.name m) = false))
         (models s').
Proof.
  apply (@normalize_postcondition exampleUtils usersSchema);
    decide_by_computation.
Defined.

(** ** Arguments the serialiser loses *)

(** X7: a keyValue argument whose value is itself an object (an array, a
    keyValue, a function call) is rendered as the key followed by the text
    [[object Object]], whatever the object holds; the same happens to an
    object inside an array. *)
Theorem prepareArg_object_value (key : string) (v : Value) :
  isObject v = true ->
  prepareArg (AttributeArgument.mk (KeyValue key v))
  = Returns (Some (key +:+ ": [object Object]"))
  /\ prepareArg (AttributeArgument.mk (ArrayValue (Some [v])))
     = Returns (Some "[[object Object]]").
Proof. destruct v; try discriminate; intros _; split; reflexivity. Qed.

Lemma prepareArg_object_value_witness :
  prepareArg
    (AttributeArgument.mk
       (KeyValue "fields" (ArrayValue (Some [Scalar "authorId"]))))
  = Returns (Some "fields: [object Object]")
  /\ prepareArg
       (AttributeArgument.mk
          (ArrayValue (Some [ArrayValue (Some [Scalar "authorId"])])))
     = Returns (Some "[[object Object]]").
Proof.
  apply (prepareArg_object_value "fields"
           (ArrayValue (Some [Scalar "authorId"]))).
  reflexivity.
Defined.

(** ** Escaped line feeds in an uploaded file *)

Lemma replaceEscapedNewlines_pair (c d : ascii) (rest : string) :
  replaceEscapedNewlines (String c (String d rest))
  = if Ascii.eqb c backslash && Ascii.eqb d "n"
    then String linefeed (replaceEscapedNewlines rest)
    else String c (replaceEscapedNewlines (String d rest)).
Proof. reflexivity. Qed.

Lemma replaceEscapedNewlines_cons (c : ascii) (x : string) :
  c <> backslash ->
  replaceEscapedNewlines (String c x) = String c (replaceEscapedNewlines x).
Proof.
  intros Hc. apply Ascii.eqb_neq in Hc.
  destruct x as [|d x]; simpl; [reflexivity|]. by rewrite Hc.
Qed.

Lemma replaceEscapedNewlines_cons_head (c d : ascii) (x : string) :
  d <> "n"%char ->
  replaceEscapedNewlines (String c (String d x))
  = String c (replaceEscapedNewlines (String d x)).
Proof.
  intros Hd. apply Ascii.eqb_neq in Hd.
  rewrite replaceEscapedNewlines_pair. by rewrite Hd, andb_false_r.
Qed.

Lemma replaceEscapedNewlines_head (d : ascii) (x : string) :
  exists h t,
    replaceEscapedNewlines (String d x) = String h t
    /\ (h = d \/ h = linefeed).
Proof.
  destruct x as [|e x]; simpl; [by eexists _, _; split; [|left]|].
  destruct (_ && _); eexists _, _; (split; [reflexivity|]); auto.
Qed.

Lemma replaceEscapedNewlines_idempotent_bounded (n : nat) (file : string) :
  String.length file <= n ->
  replaceEscapedNewlines (replaceEscapedNewlines file)
  = replaceEscapedNewlines file.
Proof.
  revert file. induction n as [|n IH]; intros file Hlen.
  - destruct file; [reflexivity|simpl in Hlen; lia].
  - destruct file as [|c [|d rest]]; try reflexivity.
    rewrite (replaceEscapedNewlines_pair c d rest).
    destruct (Ascii.eqb c backslash && Ascii.eqb d "n") eqn:Hpair.
    + rewrite replaceEscapedNewlines_cons by discriminate.
      rewrite IH; [reflexivity|]. simpl in Hlen. lia.
    + assert (Hrest : replaceEscapedNewlines
                        (replaceEscapedNewlines (String d rest))
                      = replaceEscapedNewlines (String d rest))
        by (apply IH; simpl in *; lia).
      destruct (replaceEscapedNewlines_head d rest) as (h & t & Heq & Hh).
      rewrite Heq in *.
      destruct (Ascii.eqb_spec c backslash) as [->|Hc].
      * simpl in Hpair. apply Ascii.eqb_neq in Hpair.
        rewrite replaceEscapedNewlines_cons_head; [by rewrite Hrest|].
        destruct Hh as [->| ->]; [exact Hpair|discriminate].
      * rewrite replaceEscapedNewlines_cons by exact Hc. by rewrite Hrest.
Qed.

(** X8: replacing the escaped line feeds of a file a second time changes
    nothing: no backslash followed by n is left after the first pass. *)
Theorem replaceEscapedNewlines_idempotent (file : string) :
  replaceEscapedNewlines (replaceEscapedNewlines file)
  = replaceEscapedNewlines file.
Proof. by apply (replaceEscapedNewlines_idempotent_bounded (String.length file)). Qed.

(** X9: a file and the file with its escaped line feeds already replaced get
    the same verdict and the same log from [validateSchemaUpload], whatever
    the grammar validator is. *)
Theorem validateSchemaUpload_unescaped (validate : string -> bool)
    (file : string) :
  validateSchemaUpload validate (replaceEscapedNewlines file)
  = validateSchemaUpload validate file.
Proof.
  unfold validateSchemaUpload. by rewrite replaceEscapedNewlines_idempotent.
Qed.

Example replaceEscapedNewlines_model :
  replaceEscapedNewlines
    ("model A {" +:+ String backslash "n  id Int @id" +:+ String backslash "n}")
  = "model A {" +:+ String linefeed "  id Int @id" +:+ String linefeed "}".
Proof. reflexivity. Qed.

(** ** Form inputs *)

(** X10: [createFieldInput] throws exactly for the data types Id, CreatedAt
    and UpdatedAt, with a message that names the field and the data type; for
    every other data type it returns one [div] around one element, and that
    element interpolates the field's display name and name. *)
Theorem createFieldInput_cases (dataTypeName : EnumDataType.t -> string)
    (field : EntityField.t) (entityIdToName : gmap string string) :
  (EntityField.dataType field = EnumDataType.Id
   \/ EntityField.dataType field = EnumDataType.CreatedAt
   \/ EntityField.dataType field = EnumDataType.UpdatedAt ->
   createFieldInput dataTypeName field entityIdToName
   = inl ("Can not display field " +:+ EntityField.name field
          +:+ " with data type "
          +:+ dataTypeName (EntityField.dataType field)))
  /\ (EntityField.dataType field <> EnumDataType.Id ->
      EntityField.dataType field <> EnumDataType.CreatedAt ->
      EntityField.dataType field <> EnumDataType.UpdatedAt ->
      exists strings values,
        createFieldInput dataTypeName field entityIdToName
        = inr (jsxElement ["<div>"; "</div>"]
                 [TElement (jsxElement strings values)])
        /\ TText (EntityField.displayName field) ∈ values
        /\ TText (EntityField.name field) ∈ values
        /\ List.length strings = S (List.length values)).
Proof.
  unfold createFieldInput. split.
  - by intros [-> | [-> | ->]].
  - intros Hid Hcreated Hupdated.
    destruct (EntityField.dataType field) eqn:Hdt; try congruence;
      cbn [DATA_TYPE_TO_FIELD_INPUT];
      try (destruct (FieldProperties.dateOnly (EntityField.properties field)));
      eexists _, _; (split; [reflexivity|]);
      (split; [|split; [|reflexivity]]); set_solver.
Qed.

Lemma createFieldInput_cases_witness :
  createFieldInput (fun _ => "Id")
    (EntityField.mk "id" "ID" EnumDataType.Id (FieldProperties.mk false "" []))
    ∅
  = inl "Can not display field id with data type Id".
Proof.
  apply (proj1 (createFieldInput_cases (fun _ => "Id")
                  (EntityField.mk "id" "ID" EnumDataType.Id
                     (FieldProperties.mk false "" [])) ∅)).
  by left.
Defined.

Example createFieldInput_lookup_missing :
  createFieldInput (fun _ => "Lookup")
    (EntityField.mk "owner" "Owner" EnumDataType.Lookup
       (FieldProperties.mk false "e1" []))
    ∅
  = inr (jsxElement ["<div>"; "</div>"]
           [TElement
              (jsxElement
                 [ "<"; "Select label=" +:+ dquote; dquote +:+ " name="
                     +:+ dquote;
                   ".id" +:+ dquote +:+ "   />" ]
                 [ TUndefined; TText "Owner"; TText "owner" ])]).
Proof. reflexivity. Qed.

(** X11: a file without a backslash is handed to the grammar validator as it
    is. *)
Theorem replaceEscapedNewlines_plain (file : string) :
  Forall (fun c => c <> backslash) (String.list_ascii_of_string file) ->
  replaceEscapedNewlines file = file.
Proof.
  induction file as [|c rest IH]; [reflexivity|].
  cbn [String.list_ascii_of_string]. intros Hall.
  apply Forall_cons in Hall as [Hc Hrest].
  rewrite replaceEscapedNewlines_cons by exact Hc. by rewrite IH.
Qed.

Lemma replaceEscapedNewlines_plain_witness :
  replaceEscapedNewlines "model A { id Int @id }" = "model A { id Int @id }".
Proof.
  apply (replaceEscapedNewlines_plain "model A { id Int @id }").
  decide_by_computation.
Defined.

(** ** Nothing is dropped *)

Lemma fieldKept_refl (f : Field.t) : fieldKept f f.
Proof. by repeat split. Qed.

Lemma fieldKept_trans (f1 f2 f3 : Field.t) :
  fieldKept f1 f2 -> fieldKept f2 f3 -> fieldKept f1 f3.
Proof.
  intros (Ht1 & Ho1 & Hp1) (Ht2 & Ho2 & Hp2).
  repeat split; [congruence|congruence|by etrans].
Qed.

Lemma propertyKept_refl (p : Property) : propertyKept p p.
Proof. destruct p; simpl; [apply fieldKept_refl|done..]. Qed.

Lemma propertyKept_trans (p1 p2 p3 : Property) :
  propertyKept p1 p2 -> propertyKept p2 p3 -> propertyKept p1 p3.
Proof.
  destruct p1 as [f1| | |]; simpl.
  - destruct p2 as [f2| | |]; try done. simpl.
    destruct p3 as [f3| | |]; try done. apply fieldKept_trans.
  - intros ->. simpl. done.
  - intros ->. simpl. done.
  - intros ->. simpl. done.
Qed.

Lemma modelKept_trans (m1 m2 m3 : Model.t) :
  modelKept m1 m2 -> modelKept m2 m3 -> modelKept m1 m3.
Proof.
  intros H12 H23 k p Hk.
  destruct (H12 k p Hk) as (p2 & Hk2 & Hp2).
  destruct (H23 k p2 Hk2) as (p3 & Hk3 & Hp3).
  exists p3. split; [exact Hk3|by eapply propertyKept_trans].
Qed.

Lemma attachAttribute_names (name : string) (args : list AttributeArgument.t)
    (attrs : list Attribute.t) :
  map Attribute.name attrs
  `prefix_of` map Attribute.name (attachAttribute name args attrs).
Proof.
  unfold attachAttribute. destruct (findLast _ attrs) as [i|].
  - by rewrite map_alter_same.
  - rewrite map_app. by apply prefix_app_r.
Qed.

Lemma fieldKept_edit (h : Field.t -> Field.t) (f : Field.t) :
  FieldEdit h -> fieldKept f (h f).
Proof.
  intros [args|n]; [|by repeat split].
  repeat split. cbn [Field.attributes Field.set_attributes].
  change (default [] (Some ?x)) with x. apply attachAttribute_names.
Qed.

Lemma modelKept_edit (g : Model.t -> Model.t) (m : Model.t) :
  ModelEdit g -> modelKept m (g m).
Proof.
  intros [a|n|n|h k Hh] i p Hi; unfold pushProperty;
    cbn [Model.properties Model.set_properties Model.set_name].
  - exists p. split; [by apply lookup_app_l_Some|apply propertyKept_refl].
  - exists p. split; [by apply lookup_app_l_Some|apply propertyKept_refl].
  - exists p. split; [exact Hi|apply propertyKept_refl].
  - rewrite list_lookup_alter. destruct (decide (k = i)) as [Heq|Hne].
    + subst k. rewrite Hi. eexists. split; [reflexivity|].
      destruct p; simpl; [by apply fieldKept_edit|done..].
    + exists p. split; [done|apply propertyKept_refl].
Qed.

Lemma Edited_kept (s s' : Schema) : Edited s s' -> schemaKept s s'.
Proof.
  induction 1 as [s|s s1 g j _ IH Hg]; intros i m Hi.
  - exists m. split; [exact Hi|].
    intros k p Hk. exists p. split; [exact Hk|apply propertyKept_refl].
  - destruct (IH i m Hi) as (m1 & Hi1 & Hk1).
    rewrite list_lookup_alter. destruct (decide (j = i)) as [Heq|Hne].
    + subst j. rewrite Hi1. eexists. split; [reflexivity|].
      eapply modelKept_trans; [exact Hk1|by apply modelKept_edit].
    + by exists m1.
Qed.

(** X12: on every schema the pipeline returns a schema in which each field
    is still at its place in its model, with the type and the optional flag
    it had and with the attribute names it had at the head of its attribute
    list, and in which each block attribute, comment and break of a model is
    still at its place, unchanged. *)
Theorem prepareSchema_keeps `{SchemaUtils} (s : Schema) :
  exists s',
    prepareSchema operations s = Returns s'
    /\ forall j m k p,
         s !! j = Some (BModel m) ->
         Model.properties m !! k = Some p ->
         exists m' p',
           s' !! j = Some (BModel m')
           /\ Model.properties m' !! k = Some p'
           /\ match p with
              | PField f =>
                  exists f',
                    p' = PField f'
                    /\ Field.fieldType f' = Field.fieldType f
                    /\ Field.optional f' = Field.optional f
                    /\ map Attribute.name (default [] (Field.attributes f))
                       `prefix_of`
                       map Attribute.name (default [] (Field.attributes f'))
              | _ => p' = p
              end.
Proof.
  destruct (prepareSchema_edits s) as (s' & Hrun & Hed).
  exists s'. split; [exact Hrun|]. intros j m k p Hj Hk.
  destruct (Edited_kept _ _ Hed j m Hj) as (m' & Hj' & Hm).
  destruct (Hm k p Hk) as (p' & Hk' & Hp).
  exists m', p'. split; [exact Hj'|]. split; [exact Hk'|].
  destruct p as [f| | |]; simpl in Hp; try exact Hp.
  destruct p' as [f'| | |]; try done. by exists f'.
Qed.
